(** * my-qrz-maps: the PNG rendering path of [main.py]

    A shallow embedding of the static-map pipeline: the spherical
    Mercator projection, the zoom selector, the tile locator, the tile
    cache and the canvas compositor, followed by the properties stated
    for them.

    Conventions of the embedding.
    - Python floats are read as real numbers ([R]); [math.sin], [math.log]
      and [math.pi] are [sin], [ln] and [PI].  Rounding, infinities and
      NaN are outside the model.
    - Python integers are [Z].
    - Exceptions are values of [exn]; a computation that may raise returns
      a [result].
    - The file system (tile cache, output files) and the network are an
      explicit [world] threaded through the stateful functions. *)

From Stdlib Require Import Reals Lra Lia ZArith List String Permutation.
From Stdlib Require Import Sorting.Sorted.
From stdpp Require Import base strings gmap sorting.
Import ListNotations.

Local Open Scope Z_scope.

(** ** Exceptions and the error monad *)

Inductive exn : Type :=
| ValueError (msg : string)
| ZeroDivisionError
| RuntimeError (msg : string)
| HTTPError (status : Z)
| RequestException
| UnidentifiedImageError.

Inductive result (A : Type) : Type :=
| Ok (a : A)
| Raise (e : exn).
Arguments Ok {A} a.
Arguments Raise {A} e.

Definition bind {A B} (m : result A) (k : A -> result B) : result B :=
  match m with
  | Ok a => k a
  | Raise e => Raise e
  end.

Declare Scope py_scope.
Delimit Scope py_scope with py.
Notation "x <- m ;; k" := (bind m (fun x => k))
  (at level 100, m at next level, right associativity) : py_scope.
Local Open Scope py_scope.

Fixpoint mapM {A B} (f : A -> result B) (l : list A) : result (list B) :=
  match l with
  | [] => Ok []
  | a :: l' => b <- f a ;; bs <- mapM f l' ;; Ok (b :: bs)
  end.

(** ** Float primitives that can raise *)

(** [a / b] on floats. *)
Definition py_div (a b : R) : result R :=
  if Req_dec_T b 0 then Raise ZeroDivisionError else Ok (a / b)%R.

(** [math.log(x)]. *)
Definition math_log (x : R) : result R :=
  if Rlt_dec 0 x then Ok (ln x) else Raise (ValueError "math domain error").

(** [2 ** zoom]: an exact power of two for every integer exponent. *)
Definition pow2 (zoom : Z) : R := powerRZ 2 zoom.

(** [int(r)]: truncation towards zero. *)
Definition py_int (r : R) : Z :=
  if Rle_dec 0 r then Int_part r else - Int_part (- r).

(** [min(xs)] and [max(xs)] on a sequence of floats. *)
Definition py_min (xs : list R) : result R :=
  match xs with
  | [] => Raise (ValueError "min() arg is an empty sequence")
  | x :: r => Ok (fold_left Rmin r x)
  end.

Definition py_max (xs : list R) : result R :=
  match xs with
  | [] => Raise (ValueError "max() arg is an empty sequence")
  | x :: r => Ok (fold_left Rmax r x)
  end.

(** [min] and [max] on a sequence of integers. *)
Definition py_minZ (xs : list Z) : result Z :=
  match xs with
  | [] => Raise (ValueError "min() arg is an empty sequence")
  | x :: r => Ok (fold_left Z.min r x)
  end.

Definition py_maxZ (xs : list Z) : result Z :=
  match xs with
  | [] => Raise (ValueError "max() arg is an empty sequence")
  | x :: r => Ok (fold_left Z.max r x)
  end.

(** [a <= b] on floats, as a boolean. *)
Definition Rleb (a b : R) : bool := if Rle_dec a b then true else false.

(** ** Projection ([lonlat_to_pixels], lines 67-75) *)

Definition lonlat_to_pixels (lon lat : R) (zoom : Z) : result (R * R) :=
  let siny := sin (lat * PI / 180) in
  let siny := Rmin (Rmax siny (-0.9999)) 0.9999 in
  let scale := (256 * pow2 zoom)%R in
  q <- py_div (lon + 180) 360 ;;
  let x := (q * scale)%R in
  r <- py_div (1 + siny) (1 - siny) ;;
  l <- math_log r ;;
  t <- py_div l (4 * PI) ;;
  let y := ((0.5 - t) * scale)%R in
  Ok (x, y).

(** The projection as section 4.1 of the specification words it. *)
Module ProjectionSpec.
Definition clamp (lo hi v : R) : R :=
  if Rlt_dec v lo then lo else if Rlt_dec hi v then hi else v.
Definition scale (zoom : Z) : R := (256 * powerRZ 2 zoom)%R.
Definition siny (lat : R) : R :=
  clamp (-0.9999) 0.9999 (sin (lat * PI / 180)).
Definition x (lon : R) (zoom : Z) : R :=
  ((lon + 180) / 360 * scale zoom)%R.
Definition y (lat : R) (zoom : Z) : R :=
  ((0.5 - ln ((1 + siny lat) / (1 - siny lat)) / (4 * PI)) * scale zoom)%R.
Definition project (lon lat : R) (zoom : Z) : R * R := (x lon zoom, y lat zoom).
End ProjectionSpec.

(** ** Zoom selector ([choose_zoom], lines 77-94) *)

(** A point is a [(lat, lon)] pair. *)
Definition point : Type := R * R.

Definition TARGET_WIDTH : R := 1200.
Definition TARGET_HEIGHT : R := 800.
Definition MAX_ZOOM : Z := 12.
Definition MIN_ZOOM : Z := 4.

(** [range(start, stop, -1)]. *)
Definition range_down (start stop : Z) : list Z :=
  map (fun i => start - Z.of_nat i) (seq 0 (Z.to_nat (start - stop))).

(** [xs, ys = zip( *pixels )]: unpacking fails when there is no pixel. *)
Definition unzip_pixels (pixels : list (R * R)) : result (list R * list R) :=
  match pixels with
  | [] => Raise (ValueError "not enough values to unpack (expected 2, got 0)")
  | _ => Ok (map fst pixels, map snd pixels)
  end.

(** Lines 83-89: the pixel bounding box of the points at one zoom. *)
Definition pixel_bbox_size (points : list point) (zoom : Z) : result (R * R) :=
  pixels <- mapM (fun p : point => let '(lat, lon) := p in
                                   lonlat_to_pixels lon lat zoom) points ;;
  xys <- unzip_pixels pixels ;;
  let '(xs, ys) := xys in
  min_x <- py_min xs ;;
  max_x <- py_max xs ;;
  min_y <- py_min ys ;;
  max_y <- py_max ys ;;
  Ok ((max_x - min_x)%R, (max_y - min_y)%R).

(** The body of the [for] loop, iterated over the candidate zooms; falling
    out of the loop returns [MIN_ZOOM]. *)
Fixpoint choose_zoom_loop (points : list point) (zooms : list Z) : result Z :=
  match zooms with
  | [] => Ok MIN_ZOOM
  | zoom :: rest =>
      size <- pixel_bbox_size points zoom ;;
      let '(width, height) := size in
      if Rleb width TARGET_WIDTH && Rleb height TARGET_HEIGHT
      then Ok zoom
      else choose_zoom_loop points rest
  end.

Definition choose_zoom (points : list point) (padding : R) : result Z :=
  choose_zoom_loop points (range_down MAX_ZOOM (MIN_ZOOM - 1)).

(** The default value of the [padding] parameter. *)
Definition choose_zoom_padding_default : R := 0.1%R.

(** ** Sorting ([sorted(..., key=...)])

    Python's [sorted] is stable and compares keys with [<] only; a stable
    insertion sort has the same input-output behaviour. *)

Fixpoint insert_by {A} (ltb : A -> A -> bool) (x : A) (l : list A) : list A :=
  match l with
  | [] => [x]
  | y :: l' => if ltb y x then y :: insert_by ltb x l' else x :: y :: l'
  end.

Definition py_sorted {A} (ltb : A -> A -> bool) (l : list A) : list A :=
  fold_right (insert_by ltb) [] l.

Definition Rltb (a b : R) : bool := if Rlt_dec a b then true else false.

(** Tuple comparison [(p[0], p[1]) < (q[0], q[1])]: the first components
    that differ decide. *)
Definition point_ltb (p q : point) : bool :=
  if Req_dec_T (fst p) (fst q)
  then (if Req_dec_T (snd p) (snd q) then false else Rltb (snd p) (snd q))
  else Rltb (fst p) (fst q).

(** ** Activations *)

Record activation : Type := Activation {
  summit_code : string;
  summit_name : string;
  latitude : R;
  longitude : R;
  date : string
}.

(** ** Images, files and the network *)

Inductive image_mode : Type :=
| ModeRGB
| ModeRGBA
| ModeL
| ModeP (palette : list (Z * Z * Z)).

(** A decoded raster: its mode, its size and its raw bytes ([tobytes()]). *)
Record image : Type := Image {
  im_mode : image_mode;
  im_size : Z * Z;
  im_data : list Z
}.

Fixpoint drop_alpha (d : list Z) : list Z :=
  match d with
  | r :: g :: b :: _ :: rest => r :: g :: b :: drop_alpha rest
  | _ => []
  end.

Definition rgb_data (im : image) : list Z :=
  match im_mode im with
  | ModeRGB => im_data im
  | ModeRGBA => drop_alpha (im_data im)
  | ModeL => flat_map (fun v => [v; v; v]) (im_data im)
  | ModeP palette =>
      flat_map (fun i => match nth_error palette (Z.to_nat i) with
                         | Some (r, g, b) => [r; g; b]
                         | None => [0; 0; 0]
                         end) (im_data im)
  end.

(** [im.convert("RGB")]. *)
Definition convert_RGB (im : image) : image :=
  {| im_mode := ModeRGB; im_size := im_size im; im_data := rgb_data im |}.

(** The content of a file or of a response body: an encoding of an image,
    or bytes that no decoder accepts.  PNG is lossless, so the encoding
    is identified with the image it decodes to. *)
Inductive blob : Type :=
| Encoded (im : image)
| Garbage.

(** [Image.open(...)]. *)
Definition Image_open (b : blob) : result image :=
  match b with
  | Encoded im => Ok im
  | Garbage => Raise UnidentifiedImageError
  end.

(** What [img.save(path, format="PNG")] writes. *)
Definition png_encode (im : image) : blob := Encoded im.

Inductive http_reply : Type :=
| Reply (status : Z) (content : blob)
| NoReply.

(** [resp.raise_for_status()]: client and server error codes raise. *)
Definition raise_for_status (status : Z) : result unit :=
  if (400 <=? status) && (status <? 600) then Raise (HTTPError status) else Ok tt.

Record session : Type := Session { user_agent : string }.

Record request : Type := Request {
  req_tile : Z * Z * Z;
  req_user_agent : string;
  req_timeout : Z
}.

(** The canvas as the list of drawing operations applied to a blank image. *)
Inductive draw_op : Type :=
| Paste (im : image) (box : Z * Z)
| Ellipse (xy : Z * Z * Z * Z) (fill outline : string).

Record canvas : Type := Canvas {
  cv_size : Z * Z;
  cv_ops : list draw_op
}.

(** [Image.new("RGB", size)], [img.paste(im, box)], [draw.ellipse(...)]. *)
Definition Image_new (size : Z * Z) : canvas := {| cv_size := size; cv_ops := [] |}.
Definition paste (img : canvas) (im : image) (box : Z * Z) : canvas :=
  {| cv_size := cv_size img; cv_ops := cv_ops img ++ [Paste im box] |}.
Definition ellipse (img : canvas) (xy : Z * Z * Z * Z) (fill outline : string) : canvas :=
  {| cv_size := cv_size img; cv_ops := cv_ops img ++ [Ellipse xy fill outline] |}.

(** The world outside the program: the tile server, the [tile_cache]
    directory keyed by [(z, x, y)], the requests sent so far (latest
    last) and the files written so far (latest last). *)
Record world : Type := World {
  tile_server : Z * Z * Z -> http_reply;
  tile_cache : gmap (Z * Z * Z) blob;
  requests : list request;
  written : list (string * canvas)
}.

Definition M (A : Type) : Type := world -> result A * world.

Definition retM {A} (a : A) : M A := fun w => (Ok a, w).
Definition raiseM {A} (e : exn) : M A := fun w => (Raise e, w).
Definition liftM {A} (r : result A) : M A := fun w => (r, w).
Definition bindM {A B} (m : M A) (k : A -> M B) : M B :=
  fun w => match m w with
           | (Ok a, w') => k a w'
           | (Raise e, w') => (Raise e, w')
           end.

Notation "x <~ m ;; k" := (bindM m (fun x => k))
  (at level 100, m at next level, right associativity) : py_scope.

Definition send_request (r : request) : M http_reply :=
  fun w => (Ok (tile_server w (req_tile r)),
            {| tile_server := tile_server w; tile_cache := tile_cache w;
               requests := requests w ++ [r]; written := written w |}).

Definition write_cache (k : Z * Z * Z) (b : blob) : M unit :=
  fun w => (Ok tt,
            {| tile_server := tile_server w; tile_cache := <[k := b]> (tile_cache w);
               requests := requests w; written := written w |}).

Definition write_file (name : string) (c : canvas) : M unit :=
  fun w => (Ok tt,
            {| tile_server := tile_server w; tile_cache := tile_cache w;
               requests := requests w; written := written w ++ [(name, c)] |}).

(** ** Tile fetcher and cache ([get_tile], lines 51-65)

    The cache is keyed by the tile index, which the path
    [tile_cache/<z>/<x>/<y>.png] encodes injectively; the directories
    that [mkdir] creates before the request carry no content and are left
    out. *)

Definition get_tile (z x y : Z) (s : session) : M image :=
  fun w =>
    match tile_cache w !! (z, x, y) with
    | Some b => liftM (im <- Image_open b ;; Ok (convert_RGB im)) w
    | None =>
        (resp <~ send_request {| req_tile := (z, x, y);
                                 req_user_agent := user_agent s;
                                 req_timeout := 20 |} ;;
         match resp with
         | NoReply => raiseM RequestException
         | Reply status content =>
             _ <~ liftM (raise_for_status status) ;;
             img <~ liftM (Image_open content) ;;
             _ <~ write_cache (z, x, y) (png_encode img) ;;
             retM img
         end) w
    end.

(** ** Tile locator ([mercantile.tiles]) *)

(** [mercantile.Tile(x, y, z)]. *)
Record tile : Type := Tile { tx : Z; ty : Z; tz : Z }.

Definition TILE_SIZE : Z := 256.

(** [range(lo, hi)]. *)
Definition range_up (lo hi : Z) : list Z :=
  map (fun i => lo + Z.of_nat i) (seq 0 (Z.to_nat (hi - lo))).

(** Modelled from the spec: the index of the tile column (or row) that
    holds a global pixel coordinate.  The fractional tile coordinate is
    the pixel coordinate divided by the tile size; section 3 keeps every
    tile index inside [0, 2^zoom), so the integer part is clamped to that
    range. *)
Definition tile_index (pixel : R) (zoom : Z) : Z :=
  Z.max 0 (Z.min (2 ^ zoom - 1) (Int_part (pixel / IZR TILE_SIZE))).

(** Modelled from the spec: [mercantile.tiles(west, south, east, north,
    zoom)], the third-party tile locator called on lines 124-130, whose
    code is not part of the repository.  Section 4.3: each corner of the
    box is mapped to fractional tile coordinates at the given zoom, and
    all integer tile indices whose footprint meets the box are
    enumerated. *)
Definition tiles_for_bbox (min_lon min_lat max_lon max_lat : R) (zoom : Z)
  : result (list tile) :=
  sw <- lonlat_to_pixels min_lon min_lat zoom ;;
  ne <- lonlat_to_pixels max_lon max_lat zoom ;;
  let x0 := tile_index (fst sw) zoom in
  let x1 := tile_index (fst ne) zoom in
  let y0 := tile_index (snd ne) zoom in
  let y1 := tile_index (snd sw) zoom in
  Ok (flat_map (fun x => map (fun y => Tile x y zoom) (range_up y0 (y1 + 1)))
               (range_up x0 (x1 + 1))).

(** ** Canvas compositor and the PNG path ([output_to_png], lines 96-199) *)

Definition MARKER_RADIUS : Z := 4.
Definition PADDING : R := 0.1%R.

(** Sort key [(t.y, t.x)] of line 155. *)
Definition tile_ltb (a b : tile) : bool :=
  if ty a =? ty b then tx a <? tx b else ty a <? ty b.

(** Lines 97-103. *)
Definition points_of (data : list activation) : list point :=
  map (fun a => (latitude a, longitude a)) data.

(** Lines 158-162: fetch and paste, tile after tile. *)
Fixpoint paste_tiles (tiles : list tile) (min_x min_y : Z) (s : session)
    (img : canvas) : M canvas :=
  match tiles with
  | [] => retM img
  | t :: rest =>
      tile_im <~ get_tile (tz t) (tx t) (ty t) s ;;
      let px := (tx t - min_x) * TILE_SIZE in
      let py := (ty t - min_y) * TILE_SIZE in
      paste_tiles rest min_x min_y s (paste img tile_im (px, py))
  end.

(** Lines 167-183: one marker per point. *)
Fixpoint draw_markers (points : list point) (zoom min_x min_y : Z)
    (img : canvas) : result canvas :=
  match points with
  | [] => Ok img
  | (lat, lon) :: rest =>
      g <- lonlat_to_pixels lon lat zoom ;;
      let '(gx, gy) := g in
      let px := py_int (gx - IZR (min_x * TILE_SIZE)) in
      let py := py_int (gy - IZR (min_y * TILE_SIZE)) in
      draw_markers rest zoom min_x min_y
        (ellipse img (px - MARKER_RADIUS, py - MARKER_RADIUS,
                      px + MARKER_RADIUS, py + MARKER_RADIUS) "red" "black")
  end.

(** Lines 132-183: size the canvas from the tile list, stitch the tiles,
    draw the markers. *)
Definition compose (tiles : list tile) (points : list point) (zoom : Z) : M canvas :=
  let xs := map tx tiles in
  let ys := map ty tiles in
  min_x <~ liftM (py_minZ xs) ;;
  max_x <~ liftM (py_maxZ xs) ;;
  min_y <~ liftM (py_minZ ys) ;;
  max_y <~ liftM (py_maxZ ys) ;;
  let width := (max_x - min_x + 1) * TILE_SIZE in
  let height := (max_y - min_y + 1) * TILE_SIZE in
  let img := Image_new (width, height) in
  let s := {| user_agent := "SOTA-map-generator/1.0 (ham radio)" |} in
  let tiles := py_sorted tile_ltb tiles in
  img <~ paste_tiles tiles min_x min_y s img ;;
  liftM (draw_markers points zoom min_x min_y img).

(** What lines 108-130 compute from the extracted points. *)
Record geometry : Type := Geometry {
  geo_points : list point;
  geo_bbox : R * R * R * R;
  geo_zoom : Z;
  geo_tiles : list tile
}.

Definition png_geometry (points : list point) : result geometry :=
  let points := py_sorted point_ltb points in
  let lats := map fst points in
  let lons := map snd points in
  let padding := PADDING in
  lo_lat <- py_min lats ;;
  hi_lat <- py_max lats ;;
  let min_lat := (lo_lat - padding)%R in
  let max_lat := (hi_lat + padding)%R in
  lo_lon <- py_min lons ;;
  hi_lon <- py_max lons ;;
  let min_lon := (lo_lon - padding)%R in
  let max_lon := (hi_lon + padding)%R in
  ZOOM <- choose_zoom points choose_zoom_padding_default ;;
  tiles <- tiles_for_bbox min_lon min_lat max_lon max_lat ZOOM ;;
  Ok {| geo_points := points; geo_bbox := (min_lon, min_lat, max_lon, max_lat);
        geo_zoom := ZOOM; geo_tiles := tiles |}.

(** The whole function.  The two [print] calls write to the standard
    output only and are left out; the final [save] is the write of the
    canvas to [output_filename]. *)
Definition output_to_png (data : list activation) (output_filename : string) : M unit :=
  let points := points_of data in
  match points with
  | [] => raiseM (RuntimeError "No activation coordinates found")
  | _ :: _ =>
      g <~ liftM (png_geometry points) ;;
      img <~ compose (geo_tiles g) (geo_points g) (geo_zoom g) ;;
      write_file output_filename img
  end.

(** ** Specification-side notions used in the statements *)

(** The pixel footprint of a tile: a half-open square of side 256. *)
Definition in_footprint (t : tile) (px py : R) : Prop :=
  (IZR (tx t * TILE_SIZE) <= px < IZR ((tx t + 1) * TILE_SIZE))%R /\
  (IZR (ty t * TILE_SIZE) <= py < IZR ((ty t + 1) * TILE_SIZE))%R.

(** A tile list that is exactly a rectangle of indices at one zoom. *)
Definition is_rectangle (tiles : list tile) (zoom : Z) : Prop :=
  exists x0 x1 y0 y1 : Z,
    x0 <= x1 /\ y0 <= y1 /\
    forall t, In t tiles <->
              tz t = zoom /\ x0 <= tx t <= x1 /\ y0 <= ty t <= y1.

(** The target test of line 91, on a pixel bounding box. *)
Definition fits (points : list point) (zoom : Z) : Prop :=
  exists width height : R,
    pixel_bbox_size points zoom = Ok (width, height) /\
    (width <= 1200)%R /\ (height <= 800)%R.

(** [m] is the least (greatest) element of [l]. *)
Definition is_min (m : Z) (l : list Z) : Prop := In m l /\ forall v, In v l -> m <= v.
Definition is_max (m : Z) (l : list Z) : Prop := In m l /\ forall v, In v l -> v <= m.

(** A tile can be produced without failure: it is cached in decodable
    form, or it is absent from the cache and the server answers a
    decodable body with a status that does not raise. *)
Definition tile_available (w : world) (t : tile) : Prop :=
  match tile_cache w !! (tz t, tx t, ty t) with
  | Some b => exists im, b = Encoded im
  | None => exists status im,
      tile_server w (tz t, tx t, ty t) = Reply status (Encoded im) /\
      raise_for_status status = Ok tt
  end.


(** [y] of the projection as a function of the clamped sine. *)
Definition y_of_siny (s : R) (z : Z) : R :=
  ((0.5 - ln ((1 + s) / (1 - s)) / (4 * PI)) * ProjectionSpec.scale z)%R.

(** Global pixel coordinates of a point, and the extent of the pixel
    bounding box of a sequence of points as lines 85-89 compute it. *)
Definition pixel_x (zoom : Z) (p : point) : R := ProjectionSpec.x (snd p) zoom.
Definition pixel_y (zoom : Z) (p : point) : R := ProjectionSpec.y (fst p) zoom.

Definition extent (vs : list R) : R :=
  match vs with
  | [] => 0%R
  | v :: r => (fold_left Rmax r v - fold_left Rmin r v)%R
  end.

Definition bbox_width (points : list point) (zoom : Z) : R :=
  extent (map (pixel_x zoom) points).
Definition bbox_height (points : list point) (zoom : Z) : R :=
  extent (map (pixel_y zoom) points).

(** The order that the sort key of line 108 induces on points. *)
Definition point_le (p q : point) : Prop := point_ltb q p = false.

(** The Mercator ordinate of an angle in radians, [ln((1 + sin t) / (1 - sin t))]
    split into a difference of logarithms, and its derivative. *)
Definition merc (t : R) : R := (ln (1 + sin t) - ln (1 - sin t))%R.
Definition merc' (t : R) : R := (2 / cos t)%R.

(** The two activation points of the end-to-end scenario of section 8. *)
Definition scenario_points : list point := [(46, 7); (46.5, 7.5)]%R.

(** The drawing operations of the two phases of [compose]. *)
Definition is_ellipse (op : draw_op) : Prop :=
  match op with Ellipse _ _ _ => True | Paste _ _ => False end.

(** The cache key of a tile. *)
Definition tile_key (t : tile) : Z * Z * Z := (tz t, tx t, ty t).

(** [op] pastes, at the offset of tile [t] on a canvas anchored at
    [(min_x, min_y)], the image that [get_tile] returns for [t] from the
    world [w]. *)
Definition pastes_tile (w : world) (s : session) (min_x min_y : Z) (t : tile)
    (op : draw_op) : Prop :=
  exists im,
    fst (get_tile (tz t) (tx t) (ty t) s w) = Ok im /\
    op = Paste im ((tx t - min_x) * 256, (ty t - min_y) * 256).

(** [ops] are the pastes of lines 158-162 for the tiles of a list, in
    the order of the list, from world [w] to world [w']: each paste
    holds, at the offset of its tile, the image that [get_tile] returned
    for that tile in the world that the earlier fetches left. *)
Inductive stitched (s : session) (min_x min_y : Z)
  : world -> list tile -> list draw_op -> world -> Prop :=
| stitched_nil (w : world) : stitched s min_x min_y w [] [] w
| stitched_cons (w w1 w' : world) (t : tile) (rest : list tile) (im : image)
    (ops : list draw_op) :
    get_tile (tz t) (tx t) (ty t) s w = (Ok im, w1) ->
    stitched s min_x min_y w1 rest ops w' ->
    stitched s min_x min_y w (t :: rest)
      (Paste im ((tx t - min_x) * 256, (ty t - min_y) * 256) :: ops) w'.

(** A tile as the standard tile server encodes a uniform area: a
    256 x 256 palette image with one colour. *)
Definition palette_tile : image :=
  {| im_mode := ModeP [(170, 211, 223)];
     im_size := (256, 256);
     im_data := repeat 0 (Z.to_nat 65536) |}.

(** A world with an empty cache whose server answers every request with
    that tile. *)
Definition fresh_world : world :=
  {| tile_server := fun _ => Reply 200 (Encoded palette_tile);
     tile_cache := ∅;
     requests := [];
     written := [] |}.

Definition map_session : session :=
  {| user_agent := "SOTA-map-generator/1.0 (ham radio)" |}.

(** A point lies on the world map when its projection at zoom 0 falls in
    the single 256 x 256 tile of that zoom. *)
Definition on_world_map (p : point) : Prop :=
  (0 <= pixel_x 0 p < 256)%R /\ (0 <= pixel_y 0 p < 256)%R.

(** The tile that holds a global pixel. *)
Definition tile_of_pixel (px py : R) (zoom : Z) : tile :=
  {| tx := Int_part (px / 256); ty := Int_part (py / 256); tz := zoom |}.

(** The projected pixel of [p] at the zoom of [g] lies in the footprint
    of one of the tiles of [g]. *)
Definition covered (g : geometry) (p : point) : Prop :=
  exists px py t,
    lonlat_to_pixels (snd p) (fst p) (geo_zoom g) = Ok (px, py) /\
    In t (geo_tiles g) /\ in_footprint t px py.

(** Sample inputs. *)
Definition origin_point : point := (0%R, 0%R).

Definition summit_a : activation :=
  {| summit_code := "HB/VS-001"; summit_name := "A";
     latitude := 46%R; longitude := 7%R; date := "2024-01-01T00:00:00Z" |}.
Definition summit_b : activation :=
  {| summit_code := "HB/VS-002"; summit_name := "B";
     latitude := 46.5%R; longitude := 7.5%R; date := "2024-01-02T00:00:00Z" |}.


(** ** Notions used by the further properties *)

(** A request that the compositor may send from world [w] for the tile
    list [tiles]: it carries the User-Agent [ua] and the timeout 20, and
    asks for one of the tiles, which is not cached in [w]. *)
Definition tile_request_of (w : world) (tiles : list tile) (ua : string)
    (q : request) : Prop :=
  req_user_agent q = ua /\ req_timeout q = 20 /\
  tile_cache w !! req_tile q = None /\
  exists t, In t tiles /\ req_tile q = tile_key t.

(** The tile is in the cache as a decodable file. *)
Definition tile_cached (w : world) (t : tile) : Prop :=
  exists im, tile_cache w !! tile_key t = Some (Encoded im).

(** The centre of the marker of a point on a canvas anchored at the tile
    [(min_x, min_y)] (lines 168-171), and the marker itself (lines
    173-183). *)
Definition marker_centre (zoom min_x min_y : Z) (p : point) : Z * Z :=
  (py_int (pixel_x zoom p - IZR (min_x * TILE_SIZE)),
   py_int (pixel_y zoom p - IZR (min_y * TILE_SIZE))).

Definition marker_of (zoom min_x min_y : Z) (p : point) : draw_op :=
  let '(px, py) := marker_centre zoom min_x min_y p in
  Ellipse (px - MARKER_RADIUS, py - MARKER_RADIUS,
           px + MARKER_RADIUS, py + MARKER_RADIUS) "red" "black".

Definition summit_origin : activation :=
  {| summit_code := "XX/XX-001"; summit_name := "O";
     latitude := 0%R; longitude := 0%R; date := "2024-01-03T00:00:00Z" |}.

(** ** The rest of [main.py]: call sign, activation list, HTML map, [main]

    Conventions.
    - [os.environ] is a finite map from names to values.
    - The body of the API response is identified with what [.json()]
      makes of it: the activation list it decodes to, or no JSON at all.
      JSON of another shape is outside the model, as are records with
      missing keys.
    - The HTML map is the map object handed to the mapping library: the
      arguments of [folium.Map] and the markers added to it.  The
      identifiers that the patched [_generate_id] hands out affect the
      rendering inside the library only and are left out.
    - Strings are byte strings; [upper] and the slice [date[0:10]] act on
      bytes, as Python does on ASCII text. *)

Inductive py_error : Type :=
| Exn (e : exn)
| KeyError (key : string)
| JSONDecodeError.

Inductive outcome (A : Type) : Type :=
| Done (a : A)
| Failed (e : py_error).
Arguments Done {A} a.
Arguments Failed {A} e.

(** A [result] of the PNG path as an [outcome]. *)
Definition of_result {A} (r : result A) : outcome A :=
  match r with
  | Ok a => Done a
  | Raise e => Failed (Exn e)
  end.

(** [get_callsign] (lines 15-17): a non-empty [CALLSIGN] wins; otherwise
    [os.environ["GITHUB_REPOSITORY_OWNER"]], which raises when unset. *)
Definition get_callsign (environ : gmap string string) : outcome string :=
  let fallback :=
    match environ !! "GITHUB_REPOSITORY_OWNER" with
    | Some owner => Done owner
    | None => Failed (KeyError "GITHUB_REPOSITORY_OWNER")
    end in
  match environ !! "CALLSIGN" with
  | Some callsign => if String.eqb callsign "" then fallback else Done callsign
  | None => fallback
  end.

(** [str.upper()] on ASCII letters. *)
Definition upper_ascii (c : Ascii.ascii) : Ascii.ascii :=
  let n := Ascii.nat_of_ascii c in
  if (97 <=? n)%nat && (n <=? 122)%nat then Ascii.ascii_of_nat (n - 32) else c.

Fixpoint upper (s : string) : string :=
  match s with
  | EmptyString => EmptyString
  | String c r => String (upper_ascii c) (upper r)
  end.

Inductive api_body : Type :=
| JsonActivations (data : list activation)
| NotJson.

Inductive api_reply : Type :=
| ApiReply (status : Z) (body : api_body)
| ApiNoReply.

Record api_request : Type := ApiRequest { api_url : string; api_timeout : Z }.

(** The map object built by [output_to_html]. *)
Record html_marker : Type := HtmlMarker {
  mk_location : R * R;
  mk_popup : string
}.

Record html_map : Type := HtmlMap {
  map_location : R * R;
  map_zoom_start : Z;
  map_tiles : string;
  map_control_scale : bool;
  map_prefer_canvas : bool;
  map_markers : list html_marker
}.

(** The whole system: environment, activation API, HTML files written
    (latest last) and the world of the PNG path. *)
Record system : Type := System {
  environ : gmap string string;
  api_server : string -> api_reply;
  api_requests : list api_request;
  html_written : list (string * html_map);
  png_world : world
}.

(** [fetch_sota_activations] (lines 19-22).  The status of the response
    is not checked. *)
Definition fetch_sota_activations (sys : system) : outcome (list activation) * system :=
  match get_callsign (environ sys) with
  | Failed e => (Failed e, sys)
  | Done callsign =>
      let url := ("https://sotl.as/api/activations/" ++ upper callsign)%string in
      let sys' := {| environ := environ sys; api_server := api_server sys;
                     api_requests := api_requests sys ++
                                       [{| api_url := url; api_timeout := 30 |}];
                     html_written := html_written sys; png_world := png_world sys |} in
      match api_server sys url with
      | ApiNoReply => (Failed (Exn RequestException), sys')
      | ApiReply _ NotJson => (Failed JSONDecodeError, sys')
      | ApiReply _ (JsonActivations data) => (Done data, sys')
      end
  end.

(** [sum(xs)]. *)
Definition py_sum (xs : list R) : R := fold_left Rplus xs 0%R.

(** The popup text of line 45. *)
Definition popup_of (a : activation) : string :=
  (summit_code a ++ " " ++ summit_name a ++ " (" ++ substring 0 10 (date a) ++ ")")%string.

(** Lines 26-46: the centre and the markers of the map. *)
Definition build_html_map (data : list activation) : result html_map :=
  let lats := map latitude data in
  let lons := map longitude data in
  clat <- py_div (py_sum lats) (INR (length lats)) ;;
  clon <- py_div (py_sum lons) (INR (length lons)) ;;
  Ok {| map_location := (clat, clon);
        map_zoom_start := 8;
        map_tiles := "OpenStreetMap";
        map_control_scale := true;
        map_prefer_canvas := true;
        map_markers :=
          map (fun a => {| mk_location := (latitude a, longitude a);
                           mk_popup := popup_of a |}) data |}.

(** [output_to_html] (lines 24-48). *)
Definition output_to_html (data : list activation) (output_filename : string)
    (sys : system) : outcome unit * system :=
  match build_html_map data with
  | Raise e => (Failed (Exn e), sys)
  | Ok m =>
      (Done tt,
       {| environ := environ sys; api_server := api_server sys;
          api_requests := api_requests sys;
          html_written := html_written sys ++ [(output_filename, m)];
          png_world := png_world sys |})
  end.

(** [output_to_png] run on the PNG world of the system. *)
Definition run_png (data : list activation) (output_filename : string)
    (sys : system) : outcome unit * system :=
  let '(r, w') := output_to_png data output_filename (png_world sys) in
  (of_result r,
   {| environ := environ sys; api_server := api_server sys;
      api_requests := api_requests sys; html_written := html_written sys;
      png_world := w' |}).

(** [main] (lines 202-205). *)
Definition main (sys : system) : outcome unit * system :=
  match fetch_sota_activations sys with
  | (Failed e, sys1) => (Failed e, sys1)
  | (Done data, sys1) =>
      match output_to_html data "sota.html" sys1 with
      | (Failed e, sys2) => (Failed e, sys2)
      | (Done _, sys2) => run_png data "sota.png" sys2
      end
  end.

(** The exceptions that a tile fetch can raise. *)
Definition fetch_failure (e : exn) : Prop :=
  e = RequestException \/ (exists status, e = HTTPError status) \/
  e = UnidentifiedImageError.

(** A server that never answers, and a system with one activation at the
    origin where the tile server is down. *)
Definition offline_world : world :=
  {| tile_server := fun _ => NoReply;
     tile_cache := ∅;
     requests := [];
     written := [] |}.

Definition sample_system : system :=
  {| environ := {["CALLSIGN" := "ha5xyz"]};
     api_server := fun _ => ApiReply 200 (JsonActivations [summit_origin]);
     api_requests := [];
     html_written := [];
     png_world := offline_world |}.

(** The orders of the two sort keys: [(latitude, longitude)] on points
    (line 108) and [(t.y, t.x)] on tiles (line 155). *)
Definition point_lex_le (p q : point) : Prop :=
  (fst p < fst q)%R \/ (fst p = fst q /\ (snd p <= snd q)%R).

Definition tile_le (a b : tile) : Prop :=
  ty a < ty b \/ (ty a = ty b /\ tx a <= tx b).
(** * Properties *)

(** ** The error monad *)

Lemma mapM_ok {A B} (f : A -> result B) (g : A -> B) (l : list A) :
  (forall a, f a = Ok (g a)) -> mapM f l = Ok (map g l).
Proof.
  intros Hf. induction l as [|a l IH]; simpl; [reflexivity|].
  rewrite Hf, IH. reflexivity.
Qed.

(** ** Projection *)

Section Projection.
Local Open Scope R_scope.

Lemma clamp_code_spec (s : R) :
  Rmin (Rmax s (-0.9999)) 0.9999 = ProjectionSpec.clamp (-0.9999) 0.9999 s.
Proof.
  unfold Rmin, Rmax, ProjectionSpec.clamp.
  repeat destruct Rle_dec; repeat destruct Rlt_dec; lra.
Qed.

Lemma clamp_range (s : R) :
  -0.9999 <= ProjectionSpec.clamp (-0.9999) 0.9999 s <= 0.9999.
Proof.
  unfold ProjectionSpec.clamp. repeat destruct Rlt_dec; lra.
Qed.

Lemma clamp_mono (s t : R) :
  s <= t ->
  ProjectionSpec.clamp (-0.9999) 0.9999 s <= ProjectionSpec.clamp (-0.9999) 0.9999 t.
Proof.
  unfold ProjectionSpec.clamp. intros. repeat destruct Rlt_dec; lra.
Qed.

Lemma clamp_id (s : R) :
  -0.9999 <= s <= 0.9999 -> ProjectionSpec.clamp (-0.9999) 0.9999 s = s.
Proof.
  unfold ProjectionSpec.clamp. intros. repeat destruct Rlt_dec; lra.
Qed.

Lemma siny_range (lat : R) : -0.9999 <= ProjectionSpec.siny lat <= 0.9999.
Proof. apply clamp_range. Qed.

Lemma pow2_pos (zoom : Z) : 0 < powerRZ 2 zoom.
Proof. apply powerRZ_lt. lra. Qed.

Lemma scale_pos (zoom : Z) : 0 < ProjectionSpec.scale zoom.
Proof. unfold ProjectionSpec.scale. pose proof (pow2_pos zoom). lra. Qed.

Lemma py_div_ok (a b : R) : b <> 0 -> py_div a b = Ok (a / b).
Proof. intros Hb. unfold py_div. destruct Req_dec_T; [contradiction|reflexivity]. Qed.

Lemma math_log_ok (x : R) : 0 < x -> math_log x = Ok (ln x).
Proof. intros Hx. unfold math_log. destruct Rlt_dec; [reflexivity|contradiction]. Qed.

Lemma mercator_ratio_pos (s : R) : -0.9999 <= s <= 0.9999 -> 0 < (1 + s) / (1 - s).
Proof. intros Hs. apply Rdiv_lt_0_compat; lra. Qed.

(** The code never raises and computes the formulas of section 4.1. *)
Lemma lonlat_to_pixels_total (lon lat : R) (zoom : Z) :
  lonlat_to_pixels lon lat zoom = Ok (ProjectionSpec.project lon lat zoom).
Proof.
  unfold lonlat_to_pixels, ProjectionSpec.project, ProjectionSpec.x, ProjectionSpec.y.
  rewrite clamp_code_spec. fold (ProjectionSpec.siny lat).
  pose proof (siny_range lat) as Hs.
  rewrite py_div_ok by lra. simpl.
  rewrite py_div_ok by lra. simpl.
  rewrite math_log_ok by (apply mercator_ratio_pos; exact Hs). simpl.
  rewrite py_div_ok by (pose proof PI_RGT_0; lra). simpl.
  reflexivity.
Qed.

End Projection.

(** C2: on every input the projection returns, without raising, exactly
    x = (lon + 180) / 360 * scale and
    y = (0.5 - ln((1 + siny) / (1 - siny)) / (4 pi)) * scale, with
    scale = 256 * 2^z and siny = sin(lat * pi / 180) clamped to
    [-0.9999, 0.9999]; in particular for longitude in [-180, 180] and
    latitude in (-90, 90). *)
Theorem C2_projection_formula (lon lat : R) (z : Z) :
  let scale := (256 * powerRZ 2 z)%R in
  let s := sin (lat * PI / 180) in
  let siny := if Rlt_dec s (-0.9999) then (-0.9999)%R
              else if Rlt_dec 0.9999 s then 0.9999%R else s in
  lonlat_to_pixels lon lat z =
    Ok (((lon + 180) / 360 * scale)%R,
        ((0.5 - ln ((1 + siny) / (1 - siny)) / (4 * PI)) * scale)%R).
Proof.
  intros scale s siny. rewrite lonlat_to_pixels_total. reflexivity.
Qed.

Section ProjectionOrder.
Local Open Scope R_scope.

Lemma x_increasing (z : Z) (lon1 lon2 : R) :
  lon1 < lon2 -> ProjectionSpec.x lon1 z < ProjectionSpec.x lon2 z.
Proof.
  intros H. unfold ProjectionSpec.x. pose proof (scale_pos z) as Hs.
  apply Rmult_lt_compat_r; [exact Hs|lra].
Qed.

Lemma x_monotone (z : Z) (lon1 lon2 : R) :
  lon1 <= lon2 -> ProjectionSpec.x lon1 z <= ProjectionSpec.x lon2 z.
Proof.
  intros [H|H]; [left; apply x_increasing; exact H|subst; right; reflexivity].
Qed.

Lemma ratio_monotone (s t : R) :
  -1 < s -> s <= t -> t < 1 -> (1 + s) / (1 - s) <= (1 + t) / (1 - t).
Proof.
  intros Hs Hst Ht.
  apply Rmult_le_reg_r with ((1 - s) * (1 - t)); [nra|].
  replace ((1 + s) / (1 - s) * ((1 - s) * (1 - t))) with ((1 + s) * (1 - t))
    by (field; lra).
  replace ((1 + t) / (1 - t) * ((1 - s) * (1 - t))) with ((1 + t) * (1 - s))
    by (field; lra).
  nra.
Qed.

Lemma ratio_increasing (s t : R) :
  -1 < s -> s < t -> t < 1 -> (1 + s) / (1 - s) < (1 + t) / (1 - t).
Proof.
  intros Hs Hst Ht.
  apply Rmult_lt_reg_r with ((1 - s) * (1 - t)); [nra|].
  replace ((1 + s) / (1 - s) * ((1 - s) * (1 - t))) with ((1 + s) * (1 - t))
    by (field; lra).
  replace ((1 + t) / (1 - t) * ((1 - s) * (1 - t))) with ((1 + t) * (1 - s))
    by (field; lra).
  nra.
Qed.

Lemma y_of_siny_antitone (z : Z) (s t : R) :
  -1 < s -> s <= t -> t < 1 -> y_of_siny t z <= y_of_siny s z.
Proof.
  intros Hs Hst Ht. unfold y_of_siny.
  pose proof (scale_pos z) as Hsc. pose proof PI_RGT_0 as Hpi.
  assert (Hln : ln ((1 + s) / (1 - s)) <= ln ((1 + t) / (1 - t))).
  { destruct Hst as [Hlt|Heq]; [|subst; lra].
    left. apply ln_increasing; [apply Rdiv_lt_0_compat; lra|].
    apply ratio_increasing; lra. }
  apply Rmult_le_compat_r; [lra|].
  apply Rplus_le_compat_l, Ropp_le_contravar.
  apply Rmult_le_compat_r; [|exact Hln].
  left. apply Rinv_0_lt_compat. lra.
Qed.

Lemma y_of_siny_decreasing (z : Z) (s t : R) :
  -1 < s -> s < t -> t < 1 -> y_of_siny t z < y_of_siny s z.
Proof.
  intros Hs Hst Ht. unfold y_of_siny.
  pose proof (scale_pos z) as Hsc. pose proof PI_RGT_0 as Hpi.
  assert (Hln : ln ((1 + s) / (1 - s)) < ln ((1 + t) / (1 - t))).
  { apply ln_increasing; [apply Rdiv_lt_0_compat; lra|apply ratio_increasing; lra]. }
  apply Rmult_lt_compat_r; [lra|].
  apply Rplus_lt_compat_l, Ropp_lt_contravar.
  apply Rmult_lt_compat_r; [|exact Hln].
  apply Rinv_0_lt_compat. lra.
Qed.

Lemma y_as_siny (lat : R) (z : Z) :
  ProjectionSpec.y lat z = y_of_siny (ProjectionSpec.siny lat) z.
Proof. reflexivity. Qed.

Lemma degrees_range (lat : R) :
  -90 <= lat <= 90 -> - (PI / 2) <= lat * PI / 180 <= PI / 2.
Proof. intros H. pose proof PI_RGT_0. split; nra. Qed.

Lemma sin_degrees_monotone (lat1 lat2 : R) :
  -90 <= lat1 -> lat1 <= lat2 -> lat2 <= 90 ->
  sin (lat1 * PI / 180) <= sin (lat2 * PI / 180).
Proof.
  intros H1 H12 H2.
  pose proof (degrees_range lat1 ltac:(lra)) as [? ?].
  pose proof (degrees_range lat2 ltac:(lra)) as [? ?].
  apply sin_incr_1; try assumption.
  pose proof PI_RGT_0. nra.
Qed.

Lemma sin_degrees_increasing (lat1 lat2 : R) :
  -90 <= lat1 -> lat1 < lat2 -> lat2 <= 90 ->
  sin (lat1 * PI / 180) < sin (lat2 * PI / 180).
Proof.
  intros H1 H12 H2.
  pose proof (degrees_range lat1 ltac:(lra)) as [? ?].
  pose proof (degrees_range lat2 ltac:(lra)) as [? ?].
  apply sin_increasing_1; try assumption.
  pose proof PI_RGT_0. nra.
Qed.

Lemma y_antitone (z : Z) (lat1 lat2 : R) :
  -90 <= lat1 -> lat1 <= lat2 -> lat2 <= 90 ->
  ProjectionSpec.y lat2 z <= ProjectionSpec.y lat1 z.
Proof.
  intros H1 H12 H2. rewrite !y_as_siny.
  pose proof (siny_range lat1). pose proof (siny_range lat2).
  apply y_of_siny_antitone; try lra.
  apply clamp_mono, sin_degrees_monotone; assumption.
Qed.

Lemma y_decreasing (z : Z) (lat1 lat2 : R) :
  -90 <= lat1 -> lat1 < lat2 -> lat2 <= 90 ->
  -0.9999 <= sin (lat1 * PI / 180) -> sin (lat2 * PI / 180) <= 0.9999 ->
  ProjectionSpec.y lat2 z < ProjectionSpec.y lat1 z.
Proof.
  intros H1 H12 H2 Hlo Hhi. rewrite !y_as_siny.
  pose proof (sin_degrees_increasing lat1 lat2 H1 H12 H2) as Hsin.
  unfold ProjectionSpec.siny. rewrite !clamp_id by lra.
  apply y_of_siny_decreasing; lra.
Qed.

Lemma project_origin (z : Z) :
  ProjectionSpec.project 0 0 z = (128 * powerRZ 2 z, 128 * powerRZ 2 z).
Proof.
  unfold ProjectionSpec.project, ProjectionSpec.x, ProjectionSpec.y,
    ProjectionSpec.siny, ProjectionSpec.scale.
  replace (0 * PI / 180) with 0 by lra. rewrite sin_0.
  rewrite clamp_id by lra.
  replace ((1 + 0) / (1 - 0)) with 1 by lra. rewrite ln_1.
  assert (H0 : 0 / (4 * PI) = 0) by (unfold Rdiv; apply Rmult_0_l).
  rewrite H0. apply f_equal2; lra.
Qed.

End ProjectionOrder.

(** C6: at a fixed zoom the x coordinate is strictly increasing in the
    longitude; the y coordinate is decreasing in the latitude over
    [-90, 90], strictly so between latitudes whose sine is not clamped;
    and longitude 0, latitude 0 is projected to (128 * 2^z, 128 * 2^z). *)
Theorem C6_projection_monotone_and_centre :
  (forall (z : Z) (lat lon1 lon2 : R), (lon1 < lon2)%R ->
     exists x1 y1 x2 y2,
       lonlat_to_pixels lon1 lat z = Ok (x1, y1) /\
       lonlat_to_pixels lon2 lat z = Ok (x2, y2) /\ (x1 < x2)%R) /\
  (forall (z : Z) (lon lat1 lat2 : R),
     (-90 <= lat1)%R -> (lat1 <= lat2)%R -> (lat2 <= 90)%R ->
     exists x1 y1 x2 y2,
       lonlat_to_pixels lon lat1 z = Ok (x1, y1) /\
       lonlat_to_pixels lon lat2 z = Ok (x2, y2) /\ (y2 <= y1)%R) /\
  (forall (z : Z) (lon lat1 lat2 : R),
     (-90 <= lat1)%R -> (lat1 < lat2)%R -> (lat2 <= 90)%R ->
     (-0.9999 <= sin (lat1 * PI / 180))%R -> (sin (lat2 * PI / 180) <= 0.9999)%R ->
     exists x1 y1 x2 y2,
       lonlat_to_pixels lon lat1 z = Ok (x1, y1) /\
       lonlat_to_pixels lon lat2 z = Ok (x2, y2) /\ (y2 < y1)%R) /\
  (forall z : Z,
     lonlat_to_pixels 0 0 z = Ok ((128 * powerRZ 2 z)%R, (128 * powerRZ 2 z)%R)).
Proof.
  repeat split.
  - intros z lat lon1 lon2 H. rewrite !lonlat_to_pixels_total.
    do 4 eexists. repeat split. apply x_increasing, H.
  - intros z lon lat1 lat2 H1 H12 H2. rewrite !lonlat_to_pixels_total.
    do 4 eexists. repeat split. apply y_antitone; assumption.
  - intros z lon lat1 lat2 H1 H12 H2 Hlo Hhi. rewrite !lonlat_to_pixels_total.
    do 4 eexists. repeat split. apply y_decreasing; assumption.
  - intros z. rewrite lonlat_to_pixels_total, project_origin. reflexivity.
Qed.

Lemma C6_projection_monotone_and_centre_witness :
  (exists x1 y1 x2 y2,
     lonlat_to_pixels 0 0 4 = Ok (x1, y1) /\
     lonlat_to_pixels 1 0 4 = Ok (x2, y2) /\ (x1 < x2)%R) /\
  (exists x1 y1 x2 y2,
     lonlat_to_pixels 0 0 4 = Ok (x1, y1) /\
     lonlat_to_pixels 0 30 4 = Ok (x2, y2) /\ (y2 <= y1)%R) /\
  (exists x1 y1 x2 y2,
     lonlat_to_pixels 0 0 4 = Ok (x1, y1) /\
     lonlat_to_pixels 0 30 4 = Ok (x2, y2) /\ (y2 < y1)%R).
Proof.
  destruct C6_projection_monotone_and_centre as [Hx [Hy [Hys _]]].
  split; [apply (Hx 4 0%R 0%R 1%R); lra|].
  split; [apply (Hy 4 0%R 0%R 30%R); lra|].
  apply (Hys 4 0%R 0%R 30%R); try lra.
  - replace (0 * PI / 180)%R with 0%R by lra. rewrite sin_0. lra.
  - replace (30 * PI / 180)%R with (PI / 6)%R by lra. rewrite sin_PI6. lra.
Defined.

(** ** Minimum and maximum of a sequence *)

Section Extremes.
Local Open Scope R_scope.

Lemma fold_Rmin_le (l : list R) (a : R) :
  fold_left Rmin l a <= a /\ forall v, In v l -> fold_left Rmin l a <= v.
Proof.
  revert a. induction l as [|b l IH]; intros a; simpl.
  - split; [lra|tauto].
  - destruct (IH (Rmin a b)) as [H1 H2].
    pose proof (Rmin_l a b). pose proof (Rmin_r a b).
    split; [lra|]. intros v [<-|Hv]; [lra|auto].
Qed.

Lemma fold_Rmin_in (l : list R) (a : R) : In (fold_left Rmin l a) (a :: l).
Proof.
  revert a. induction l as [|b l IH]; intros a; simpl; [auto|].
  destruct (IH (Rmin a b)) as [H|H]; [|auto].
  rewrite <- H. unfold Rmin. destruct Rle_dec; auto.
Qed.

Lemma fold_Rmax_ge (l : list R) (a : R) :
  a <= fold_left Rmax l a /\ forall v, In v l -> v <= fold_left Rmax l a.
Proof.
  revert a. induction l as [|b l IH]; intros a; simpl.
  - split; [lra|tauto].
  - destruct (IH (Rmax a b)) as [H1 H2].
    pose proof (Rmax_l a b). pose proof (Rmax_r a b).
    split; [lra|]. intros v [<-|Hv]; [lra|auto].
Qed.

Lemma fold_Rmax_in (l : list R) (a : R) : In (fold_left Rmax l a) (a :: l).
Proof.
  revert a. induction l as [|b l IH]; intros a; simpl; [auto|].
  destruct (IH (Rmax a b)) as [H|H]; [|auto].
  rewrite <- H. unfold Rmax. destruct Rle_dec; auto.
Qed.

(** [min(xs)] of a non-empty sequence is its least element. *)
Lemma py_min_spec (l : list R) :
  l <> [] -> exists m, py_min l = Ok m /\ In m l /\ forall v, In v l -> m <= v.
Proof.
  destruct l as [|a l]; [congruence|]. intros _.
  exists (fold_left Rmin l a). split; [reflexivity|].
  split; [apply fold_Rmin_in|].
  destruct (fold_Rmin_le l a) as [H1 H2]. intros v [<-|Hv]; auto.
Qed.

Lemma py_max_spec (l : list R) :
  l <> [] -> exists m, py_max l = Ok m /\ In m l /\ forall v, In v l -> v <= m.
Proof.
  destruct l as [|a l]; [congruence|]. intros _.
  exists (fold_left Rmax l a). split; [reflexivity|].
  split; [apply fold_Rmax_in|].
  destruct (fold_Rmax_ge l a) as [H1 H2]. intros v [<-|Hv]; auto.
Qed.

End Extremes.

Section ExtremesZ.

Lemma fold_Zmin_le (l : list Z) (a : Z) :
  fold_left Z.min l a <= a /\ forall v, In v l -> fold_left Z.min l a <= v.
Proof.
  revert a. induction l as [|b l IH]; intros a; simpl.
  - split; [lia|tauto].
  - destruct (IH (Z.min a b)) as [H1 H2].
    split; [lia|]. intros v [<-|Hv]; [lia|auto].
Qed.

Lemma fold_Zmin_in (l : list Z) (a : Z) : In (fold_left Z.min l a) (a :: l).
Proof.
  revert a. induction l as [|b l IH]; intros a; simpl; [auto|].
  destruct (IH (Z.min a b)) as [H|H]; [|auto].
  rewrite <- H. destruct (Z.min_spec a b) as [[_ ->]|[_ ->]]; auto.
Qed.

Lemma fold_Zmax_ge (l : list Z) (a : Z) :
  a <= fold_left Z.max l a /\ forall v, In v l -> v <= fold_left Z.max l a.
Proof.
  revert a. induction l as [|b l IH]; intros a; simpl.
  - split; [lia|tauto].
  - destruct (IH (Z.max a b)) as [H1 H2].
    split; [lia|]. intros v [<-|Hv]; [lia|auto].
Qed.

Lemma fold_Zmax_in (l : list Z) (a : Z) : In (fold_left Z.max l a) (a :: l).
Proof.
  revert a. induction l as [|b l IH]; intros a; simpl; [auto|].
  destruct (IH (Z.max a b)) as [H|H]; [|auto].
  rewrite <- H. destruct (Z.max_spec a b) as [[_ ->]|[_ ->]]; auto.
Qed.

Lemma py_minZ_spec (l : list Z) :
  l <> [] -> exists m, py_minZ l = Ok m /\ is_min m l.
Proof.
  destruct l as [|a l]; [congruence|]. intros _.
  exists (fold_left Z.min l a). split; [reflexivity|].
  split; [apply fold_Zmin_in|].
  destruct (fold_Zmin_le l a) as [H1 H2]. intros v [<-|Hv]; auto.
Qed.

Lemma py_maxZ_spec (l : list Z) :
  l <> [] -> exists m, py_maxZ l = Ok m /\ is_max m l.
Proof.
  destruct l as [|a l]; [congruence|]. intros _.
  exists (fold_left Z.max l a). split; [reflexivity|].
  split; [apply fold_Zmax_in|].
  destruct (fold_Zmax_ge l a) as [H1 H2]. intros v [<-|Hv]; auto.
Qed.

End ExtremesZ.

(** ** Zoom selector *)

Section ZoomSelector.
Local Open Scope R_scope.

Lemma Rleb_true (a b : R) : Rleb a b = true <-> a <= b.
Proof. unfold Rleb. destruct Rle_dec; split; intros; (congruence || lra || auto). Qed.

Lemma range_down_candidates :
  range_down MAX_ZOOM (MIN_ZOOM - 1) = [12; 11; 10; 9; 8; 7; 6; 5; 4]%Z.
Proof. reflexivity. Qed.

Lemma extent_spec (vs : list R) :
  vs <> [] ->
  (forall a b, In a vs -> In b vs -> a - b <= extent vs) /\
  (exists a b, In a vs /\ In b vs /\ extent vs = a - b).
Proof.
  destruct vs as [|v r]; [congruence|]. intros _. unfold extent.
  destruct (fold_Rmax_ge r v) as [Hx1 Hx2].
  destruct (fold_Rmin_le r v) as [Hn1 Hn2].
  split.
  - intros a b Ha Hb.
    assert (a <= fold_left Rmax r v) by (destruct Ha as [<-|Ha]; auto).
    assert (fold_left Rmin r v <= b) by (destruct Hb as [<-|Hb]; auto).
    lra.
  - exists (fold_left Rmax r v), (fold_left Rmin r v).
    split; [apply fold_Rmax_in|]. split; [apply fold_Rmin_in|reflexivity].
Qed.

Lemma pixels_of_points (points : list point) (zoom : Z) :
  mapM (fun p : point => let '(lat, lon) := p in lonlat_to_pixels lon lat zoom) points
  = Ok (map (fun p => (pixel_x zoom p, pixel_y zoom p)) points).
Proof.
  apply mapM_ok. intros [lat lon]. apply lonlat_to_pixels_total.
Qed.

(** Lines 83-89 on a non-empty sequence: no exception, and the extent
    of the projected points in each direction. *)
Lemma pixel_bbox_size_eq (points : list point) (zoom : Z) :
  points <> [] ->
  pixel_bbox_size points zoom = Ok (bbox_width points zoom, bbox_height points zoom).
Proof.
  intros Hne. unfold pixel_bbox_size. rewrite pixels_of_points.
  destruct points as [|p points]; [congruence|].
  unfold bbox_width, bbox_height. simpl.
  rewrite !map_map. reflexivity.
Qed.

Lemma pixel_bbox_size_empty (zoom : Z) :
  pixel_bbox_size [] zoom =
    Raise (ValueError "not enough values to unpack (expected 2, got 0)").
Proof. reflexivity. Qed.

Lemma fits_iff (points : list point) (zoom : Z) :
  points <> [] ->
  fits points zoom <-> bbox_width points zoom <= 1200 /\ bbox_height points zoom <= 800.
Proof.
  intros Hne. unfold fits. rewrite pixel_bbox_size_eq by exact Hne. split.
  - intros (w & h & Heq & Hw & Hh). injection Heq as <- <-. auto.
  - intros [Hw Hh]. eauto.
Qed.

Lemma fits_test (points : list point) (zoom : Z) :
  points <> [] ->
  Rleb (bbox_width points zoom) TARGET_WIDTH && Rleb (bbox_height points zoom) TARGET_HEIGHT
    = true <-> fits points zoom.
Proof.
  intros Hne. rewrite fits_iff by exact Hne.
  rewrite andb_true_iff, !Rleb_true. unfold TARGET_WIDTH, TARGET_HEIGHT. tauto.
Qed.

(** The loop returns the first candidate that fits, or [MIN_ZOOM] when
    it runs out of candidates. *)
Lemma choose_zoom_loop_spec (points : list point) (zooms : list Z) :
  points <> [] ->
  exists z, choose_zoom_loop points zooms = Ok z /\
    ((exists pre post, zooms = pre ++ z :: post /\ fits points z /\
                       forall z', In z' pre -> ~ fits points z') \/
     (z = MIN_ZOOM /\ forall z', In z' zooms -> ~ fits points z')).
Proof.
  intros Hne. induction zooms as [|zoom rest IH]; simpl.
  - exists MIN_ZOOM. split; [reflexivity|]. right. split; [reflexivity|tauto].
  - rewrite pixel_bbox_size_eq by exact Hne. simpl.
    destruct (Rleb (bbox_width points zoom) TARGET_WIDTH &&
              Rleb (bbox_height points zoom) TARGET_HEIGHT) eqn:Htest.
    + exists zoom. split; [reflexivity|]. left. exists [], rest.
      split; [reflexivity|]. split; [apply fits_test; assumption|].
      intros z' [].
    + assert (Hno : ~ fits points zoom).
      { intros Hf. apply fits_test in Hf; [congruence|exact Hne]. }
      destruct IH as (z & Hz & [(pre & post & Hsplit & Hfit & Hpre)|[Hmin Hall]]).
      * exists z. split; [exact Hz|]. left. exists (zoom :: pre), post.
        split; [rewrite Hsplit; reflexivity|]. split; [exact Hfit|].
        intros z' [<-|Hin]; auto.
      * exists z. split; [exact Hz|]. right. split; [exact Hmin|].
        intros z' [<-|Hin]; auto.
Qed.

End ZoomSelector.

(** In a strictly descending list, whatever is larger than an element
    stands before it. *)
Lemma descending_prefix (pre post : list Z) (z z' : Z) :
  StronglySorted Z.gt (pre ++ z :: post) -> In z' (pre ++ z :: post) -> z < z' ->
  In z' pre.
Proof.
  induction pre as [|a pre IH]; simpl; intros Hs Hin Hlt.
  - apply StronglySorted_inv in Hs as [_ Hall].
    destruct Hin as [->|Hin]; [lia|].
    rewrite List.Forall_forall in Hall. specialize (Hall _ Hin). lia.
  - apply StronglySorted_inv in Hs as [Hs _].
    destruct Hin as [->|Hin]; [left; reflexivity|right; auto].
Qed.

(** C1: on a non-empty sequence of points [choose_zoom] tries the zooms
    12, 11, ..., 4 in this order and returns the first (highest) one at
    which the projected pixel bounding box is at most 1200 wide and 800
    high; when no zoom of [4, 12] fits it returns 4.  The width and
    height tested are the largest differences of projected x and y
    coordinates of two points. *)
Theorem C1_choose_zoom_first_fit (points : list point) (padding : R) :
  points <> [] ->
  range_down MAX_ZOOM (MIN_ZOOM - 1) = [12; 11; 10; 9; 8; 7; 6; 5; 4] /\
  (forall zoom, exists width height,
      pixel_bbox_size points zoom = Ok (width, height) /\
      (forall p q, In p points -> In q points ->
                   (pixel_x zoom p - pixel_x zoom q <= width)%R /\
                   (pixel_y zoom p - pixel_y zoom q <= height)%R) /\
      (exists p q, In p points /\ In q points /\
                   width = (pixel_x zoom p - pixel_x zoom q)%R) /\
      (exists p q, In p points /\ In q points /\
                   height = (pixel_y zoom p - pixel_y zoom q)%R)) /\
  exists z, choose_zoom points padding = Ok z /\ 4 <= z <= 12 /\
    ((fits points z /\ forall z', z < z' <= 12 -> ~ fits points z') \/
     (z = 4 /\ forall z', 4 <= z' <= 12 -> ~ fits points z')).
Proof.
  intros Hne. split; [reflexivity|]. split.
  - intros zoom. exists (bbox_width points zoom), (bbox_height points zoom).
    split; [apply pixel_bbox_size_eq, Hne|].
    assert (Hx : map (pixel_x zoom) points <> []) by (destruct points; simpl; congruence).
    assert (Hy : map (pixel_y zoom) points <> []) by (destruct points; simpl; congruence).
    destruct (extent_spec _ Hx) as [Hxle (a & b & Ha & Hb & Hxeq)].
    destruct (extent_spec _ Hy) as [Hyle (c & d & Hc & Hd & Hyeq)].
    split; [|split].
    + intros p q Hp Hq. split.
      * apply Hxle; apply in_map; assumption.
      * apply Hyle; apply in_map; assumption.
    + apply in_map_iff in Ha as (p & <- & Hp). apply in_map_iff in Hb as (q & <- & Hq).
      exists p, q. auto.
    + apply in_map_iff in Hc as (p & <- & Hp). apply in_map_iff in Hd as (q & <- & Hq).
      exists p, q. auto.
  - unfold choose_zoom.
    destruct (choose_zoom_loop_spec points (range_down MAX_ZOOM (MIN_ZOOM - 1)) Hne)
      as (z & Hz & Hcase).
    exists z. split; [exact Hz|]. rewrite range_down_candidates in Hcase.
    destruct Hcase as [(pre & post & Hsplit & Hfit & Hpre)|[Hmin Hall]].
    + assert (Hin : In z [12; 11; 10; 9; 8; 7; 6; 5; 4]).
      { rewrite Hsplit. apply in_or_app. right. left. reflexivity. }
      split; [simpl in Hin; lia|]. left. split; [exact Hfit|].
      intros z' Hz'. apply Hpre.
      apply (descending_prefix pre post z z'); [| |lia].
      * rewrite <- Hsplit. repeat constructor; lia.
      * rewrite <- Hsplit. simpl in Hin |- *. lia.
    + unfold MIN_ZOOM in Hmin. split; [lia|]. right. split; [exact Hmin|].
      intros z' Hz'. apply Hall. simpl. lia.
Qed.

Lemma C1_choose_zoom_first_fit_witness :
  [(0%R, 0%R)] <> [] /\
  exists z, choose_zoom [(0%R, 0%R)] 0.1%R = Ok z /\ 4 <= z <= 12 /\
    ((fits [(0%R, 0%R)] z /\ forall z', z < z' <= 12 -> ~ fits [(0%R, 0%R)] z') \/
     (z = 4 /\ forall z', 4 <= z' <= 12 -> ~ fits [(0%R, 0%R)] z')).
Proof.
  split; [discriminate|].
  apply (C1_choose_zoom_first_fit [(0%R, 0%R)] 0.1%R). discriminate.
Defined.

(** ** Sorting *)

Section StableSort.
Context {A : Type} (ltb : A -> A -> bool).

Lemma insert_by_perm (x : A) (l : list A) : Permutation (insert_by ltb x l) (x :: l).
Proof.
  induction l as [|y l IH]; simpl; [reflexivity|].
  destruct (ltb y x); [|reflexivity].
  rewrite IH. apply perm_swap.
Qed.

Lemma py_sorted_perm (l : list A) : Permutation (py_sorted ltb l) l.
Proof.
  induction l as [|x l IH]; simpl; [reflexivity|].
  rewrite insert_by_perm. constructor. exact IH.
Qed.

Lemma py_sorted_in (l : list A) (x : A) : In x (py_sorted ltb l) <-> In x l.
Proof.
  split; apply Permutation_in; [|symmetry]; apply py_sorted_perm.
Qed.

Lemma py_sorted_nonempty (l : list A) : l <> [] -> py_sorted ltb l <> [].
Proof.
  intros Hne Heq. apply Hne. apply Permutation_nil.
  rewrite <- Heq. apply py_sorted_perm.
Qed.

(** [a] is not after [b]. *)
Let le (a b : A) : Prop := ltb b a = false.

Hypothesis ltb_asym : forall a b, ltb a b = true -> ltb b a = false.

Lemma insert_by_hdrel (y x : A) (l : list A) :
  le y x -> HdRel le y l -> HdRel le y (insert_by ltb x l).
Proof.
  intros Hyx Hl. destruct l as [|z l]; simpl; [constructor; exact Hyx|].
  destruct (ltb z x); constructor; [|exact Hyx].
  inversion Hl; assumption.
Qed.

Lemma insert_by_sorted (x : A) (l : list A) :
  Sorted le l -> Sorted le (insert_by ltb x l).
Proof.
  induction l as [|y l IH]; simpl; intros Hs.
  - repeat constructor.
  - apply Sorted_inv in Hs as [Hs Hhd].
    destruct (ltb y x) eqn:Hyx.
    + constructor; [auto|]. apply insert_by_hdrel; [|exact Hhd].
      apply ltb_asym, Hyx.
    + constructor; [constructor; assumption|]. constructor. exact Hyx.
Qed.

Lemma py_sorted_sorted (l : list A) : Sorted le (py_sorted ltb l).
Proof.
  induction l as [|x l IH]; simpl; [constructor|].
  apply insert_by_sorted, IH.
Qed.

End StableSort.

Section PointOrder.
Local Open Scope R_scope.

Lemma point_ltb_true (p q : point) :
  point_ltb p q = true <->
  fst p < fst q \/ (fst p = fst q /\ snd p < snd q).
Proof.
  unfold point_ltb, Rltb.
  repeat destruct Req_dec_T; repeat destruct Rlt_dec;
    split; intros H; try discriminate; try reflexivity; lra.
Qed.

Lemma point_le_iff (p q : point) :
  point_le p q <-> fst p < fst q \/ (fst p = fst q /\ snd p <= snd q).
Proof.
  unfold point_le. destruct (point_ltb q p) eqn:H.
  - apply point_ltb_true in H. split; [discriminate|lra].
  - split; [intros _|reflexivity].
    assert (Hn : ~ (fst q < fst p \/ (fst q = fst p /\ snd q < snd p))).
    { intros Hc. apply point_ltb_true in Hc. congruence. }
    lra.
Qed.

Lemma point_ltb_asym (p q : point) : point_ltb p q = true -> point_ltb q p = false.
Proof.
  intros H. apply point_ltb_true in H.
  destruct (point_ltb q p) eqn:H'; [|reflexivity].
  apply point_ltb_true in H'. lra.
Qed.

Lemma point_le_trans (p q r : point) : point_le p q -> point_le q r -> point_le p r.
Proof. rewrite !point_le_iff. lra. Qed.

Lemma point_le_antisym (p q : point) : point_le p q -> point_le q p -> p = q.
Proof.
  rewrite !point_le_iff. destruct p, q; simpl. intros H1 H2.
  f_equal; lra.
Qed.

#[local] Instance point_le_transitive : Transitive point_le.
Proof. intros p q r. apply point_le_trans. Qed.

#[local] Instance point_le_antisymm : AntiSymm eq point_le.
Proof. intros p q. apply point_le_antisym. Qed.

(** Sorting by [(latitude, longitude)] forgets the order of the input. *)
Lemma sorted_points_perm (l1 l2 : list point) :
  Permutation l1 l2 -> py_sorted point_ltb l1 = py_sorted point_ltb l2.
Proof.
  intros Hp. apply (Sorted_unique point_le).
  - apply py_sorted_sorted, point_ltb_asym.
  - apply py_sorted_sorted, point_ltb_asym.
  - rewrite !py_sorted_perm. exact Hp.
Qed.

End PointOrder.

(** C9: the PNG path sorts the points by (latitude, longitude) before it
    chooses the zoom, computes the tiles and draws the markers, so two
    activation lists that are permutations of each other give the same
    result and leave the world in the same state. *)
Theorem C9_png_order_independent (data data' : list activation)
    (output_filename : string) (w : world) :
  Permutation data data' ->
  py_sorted point_ltb (points_of data) = py_sorted point_ltb (points_of data') /\
  png_geometry (points_of data) = png_geometry (points_of data') /\
  output_to_png data output_filename w = output_to_png data' output_filename w.
Proof.
  intros Hp.
  assert (Hpts : Permutation (points_of data) (points_of data'))
    by (apply Permutation_map, Hp).
  pose proof (sorted_points_perm _ _ Hpts) as Hs.
  assert (Hg : png_geometry (points_of data) = png_geometry (points_of data'))
    by (unfold png_geometry; rewrite Hs; reflexivity).
  split; [exact Hs|]. split; [exact Hg|].
  unfold output_to_png. rewrite Hg.
  destruct (points_of data) as [|p l] eqn:E, (points_of data') as [|p' l'] eqn:E';
    try reflexivity.
  - apply Permutation_nil in Hpts. discriminate.
  - symmetry in Hpts. apply Permutation_nil in Hpts. discriminate.
Qed.

(** ** The Mercator ordinate between two latitudes *)

Section Mercator.
Local Open Scope R_scope.

Lemma ln_quotient (a b : R) : 0 < a -> 0 < b -> ln (a / b) = ln a - ln b.
Proof.
  intros Ha Hb. unfold Rdiv.
  rewrite ln_mult by (try apply Rinv_0_lt_compat; assumption).
  rewrite ln_Rinv by assumption. ring.
Qed.

Lemma sin_strict_range (t : R) : - (PI / 2) < t < PI / 2 -> -1 < sin t < 1.
Proof.
  intros [Hlo Hhi]. pose proof (cos_gt_0 t Hlo Hhi) as Hc.
  pose proof (sin2_cos2 t) as Hsq. unfold Rsqr in Hsq. split; nra.
Qed.

Lemma merc_derivative (t : R) :
  - (PI / 2) < t < PI / 2 -> derivable_pt_lim merc t (merc' t).
Proof.
  intros Ht. pose proof (sin_strict_range t Ht) as Hs.
  destruct Ht as [Hlo Hhi]. pose proof (cos_gt_0 t Hlo Hhi) as Hc.
  pose proof (sin2_cos2 t) as Hsq. unfold Rsqr in Hsq.
  change merc with
    ((comp ln (fct_cte 1 + sin)) - (comp ln (fct_cte 1 - sin)))%F.
  replace (merc' t) with
    (/ (1 + sin t) * (0 + cos t) - / (1 - sin t) * (0 - cos t)).
  - apply derivable_pt_lim_minus; apply derivable_pt_lim_comp.
    + apply derivable_pt_lim_plus;
        [apply derivable_pt_lim_const|apply derivable_pt_lim_sin].
    + apply derivable_pt_lim_ln. unfold plus_fct, fct_cte. lra.
    + apply derivable_pt_lim_minus;
        [apply derivable_pt_lim_const|apply derivable_pt_lim_sin].
    + apply derivable_pt_lim_ln. unfold minus_fct, fct_cte. lra.
  - unfold merc'.
    assert (Hprod : (1 + sin t) * (1 - sin t) = cos t * cos t) by nra.
    apply Rmult_eq_reg_r with ((1 + sin t) * (1 - sin t)); [|nra].
    rewrite Hprod at 2. field. repeat split; lra.
Qed.

(** Mean value form: between two angles of the open quarter turn the
    ordinate grows by the secant of an intermediate angle. *)
Lemma merc_mean_value (a b : R) :
  - (PI / 2) < a -> a < b -> b < PI / 2 ->
  exists c, a < c < b /\ merc b - merc a = 2 / cos c * (b - a).
Proof.
  intros Ha Hab Hb.
  destruct (MVT_cor2 merc merc' a b Hab) as (c & Heq & Hc).
  - intros c Hc. apply merc_derivative. lra.
  - exists c. split; [exact Hc|exact Heq].
Qed.

Lemma y_unclamped (lat : R) (z : Z) :
  -90 < lat < 90 -> -0.9999 <= sin (lat * PI / 180) <= 0.9999 ->
  ProjectionSpec.y lat z =
    (0.5 - merc (lat * PI / 180) / (4 * PI)) * ProjectionSpec.scale z.
Proof.
  intros Hlat Hs. unfold ProjectionSpec.y, ProjectionSpec.siny.
  rewrite clamp_id by exact Hs. unfold merc.
  rewrite ln_quotient by lra. reflexivity.
Qed.

Lemma cos_PI4_bounds : 0.7 < cos (PI / 4) < 0.8.
Proof.
  pose proof (sin2_cos2 (PI / 4)) as Hsq. rewrite sin_cos_PI4 in Hsq.
  unfold Rsqr in Hsq.
  assert (0 < cos (PI / 4)) by (apply cos_gt_0; pose proof PI_RGT_0; lra).
  split; nra.
Qed.

(** Between latitudes 45 and 60 degrees the cosine lies in (0.5, 0.8). *)
Lemma cos_mid_band (c : R) : PI / 4 < c < PI / 3 -> 0.5 < cos c < 0.8.
Proof.
  intros [Hlo Hhi]. pose proof PI_RGT_0 as Hpi.
  pose proof cos_PI4_bounds as [_ H4]. pose proof cos_PI3 as H3.
  assert (cos c < cos (PI / 4)) by (apply cos_decreasing_1; lra).
  assert (cos (PI / 3) < cos c) by (apply cos_decreasing_1; lra).
  lra.
Qed.

Lemma sin_mid_band (t : R) : PI / 4 < t < PI / 3 -> -0.9999 <= sin t <= 0.9999.
Proof.
  intros Ht. pose proof (cos_mid_band t Ht) as Hc.
  pose proof (sin2_cos2 t) as Hsq. unfold Rsqr in Hsq. split; nra.
Qed.

(** The pixel height between two latitudes of the band 45..60 degrees. *)
Lemma height_mid_band (lat1 lat2 : R) (z : Z) :
  45 < lat1 -> lat1 < lat2 -> lat2 < 60 ->
  let h := ProjectionSpec.y lat1 z - ProjectionSpec.y lat2 z in
  (lat2 - lat1) * ProjectionSpec.scale z / 288 < h /\
  h < (lat2 - lat1) * ProjectionSpec.scale z / 180.
Proof.
  intros H1 H12 H2 h. subst h. pose proof PI_RGT_0 as Hpi.
  pose proof (scale_pos z) as Hsc.
  assert (Ha : PI / 4 < lat1 * PI / 180 < PI / 3) by (split; nra).
  assert (Hb : PI / 4 < lat2 * PI / 180 < PI / 3) by (split; nra).
  rewrite !y_unclamped by (try apply sin_mid_band; try assumption; lra).
  destruct (merc_mean_value (lat1 * PI / 180) (lat2 * PI / 180))
    as (c & Hc & Hmv); [lra|nra|lra|].
  pose proof (cos_mid_band c ltac:(lra)) as Hcos.
  set (S := ProjectionSpec.scale z) in *.
  replace ((0.5 - merc (lat1 * PI / 180) / (4 * PI)) * S -
           (0.5 - merc (lat2 * PI / 180) / (4 * PI)) * S)
    with ((merc (lat2 * PI / 180) - merc (lat1 * PI / 180)) / (4 * PI) * S)
    by (field; lra).
  rewrite Hmv.
  replace (2 / cos c * (lat2 * PI / 180 - lat1 * PI / 180) / (4 * PI) * S)
    with ((lat2 - lat1) * S / 360 * / cos c) by (field; lra).
  assert (Hinv : 1.25 < / cos c < 2).
  { split.
    - apply Rmult_lt_reg_r with (cos c); [lra|]. rewrite Rinv_l by lra. lra.
    - apply Rmult_lt_reg_r with (cos c); [lra|]. rewrite Rinv_l by lra. lra. }
  assert (Hpos : 0 < (lat2 - lat1) * S) by nra.
  split; nra.
Qed.

End Mercator.

(** ** The two-activation scenario *)

Section Scenario.
Local Open Scope R_scope.

Lemma Rleb_false (a b : R) : Rleb a b = false <-> b < a.
Proof. unfold Rleb. destruct Rle_dec; split; intros; (congruence || lra || auto). Qed.

Lemma scale_12 : ProjectionSpec.scale 12 = 1048576.
Proof. unfold ProjectionSpec.scale. simpl. lra. Qed.
Lemma scale_11 : ProjectionSpec.scale 11 = 524288.
Proof. unfold ProjectionSpec.scale. simpl. lra. Qed.
Lemma scale_10 : ProjectionSpec.scale 10 = 262144.
Proof. unfold ProjectionSpec.scale. simpl. lra. Qed.

Lemma scenario_width (z : Z) :
  bbox_width scenario_points z = ProjectionSpec.scale z / 720.
Proof.
  unfold bbox_width, scenario_points, extent, pixel_x. cbn [map fold_left snd].
  pose proof (x_increasing z 7 7.5 ltac:(lra)) as Hx.
  rewrite Rmax_right, Rmin_left by lra.
  unfold ProjectionSpec.x. lra.
Qed.

Lemma scenario_height (z : Z) :
  ProjectionSpec.scale z / 576 < bbox_height scenario_points z
    < ProjectionSpec.scale z / 360.
Proof.
  unfold bbox_height, scenario_points, extent, pixel_y. cbn [map fold_left fst].
  pose proof (height_mid_band 46 46.5 z ltac:(lra) ltac:(lra) ltac:(lra)) as H.
  cbv zeta in H. pose proof (scale_pos z) as Hsc.
  rewrite Rmax_left, Rmin_right by lra. lra.
Qed.

(** Zoom 12 is too wide, zoom 11 too high, zoom 10 fits. *)
Lemma choose_zoom_scenario (padding : R) :
  choose_zoom scenario_points padding = Ok 10%Z.
Proof.
  assert (Hne : scenario_points <> []) by discriminate.
  unfold choose_zoom. rewrite range_down_candidates.
  unfold choose_zoom_loop.
  rewrite !pixel_bbox_size_eq by exact Hne. cbn [bind].
  unfold TARGET_WIDTH, TARGET_HEIGHT.
  pose proof (scenario_height 11) as H11. pose proof (scenario_height 10) as H10.
  rewrite scale_11 in H11. rewrite scale_10 in H10.
  assert (W12 : Rleb (bbox_width scenario_points 12) 1200 = false).
  { apply Rleb_false. rewrite scenario_width, scale_12. lra. }
  assert (H11' : Rleb (bbox_height scenario_points 11) 800 = false).
  { apply Rleb_false. lra. }
  assert (W10 : Rleb (bbox_width scenario_points 10) 1200 = true).
  { apply Rleb_true. rewrite scenario_width, scale_10. lra. }
  assert (H10' : Rleb (bbox_height scenario_points 10) 800 = true).
  { apply Rleb_true. lra. }
  rewrite W12, H11', W10, H10'. cbn [andb].
  rewrite andb_false_r. reflexivity.
Qed.

Lemma scenario_points_sorted :
  py_sorted point_ltb scenario_points = scenario_points.
Proof.
  unfold scenario_points, py_sorted. cbn [fold_right insert_by].
  replace (point_ltb (46.5, 7.5) (46, 7)) with false; [reflexivity|].
  symmetry. apply point_ltb_asym. apply point_ltb_true. cbn [fst snd]. lra.
Qed.

Lemma tiles_for_bbox_total (min_lon min_lat max_lon max_lat : R) (zoom : Z) :
  exists tiles, tiles_for_bbox min_lon min_lat max_lon max_lat zoom = Ok tiles.
Proof.
  unfold tiles_for_bbox. rewrite !lonlat_to_pixels_total. cbn [bind]. eauto.
Qed.

End Scenario.

(** C3, as the code has it: for the activation points (46.0, 7.0) and
    (46.5, 7.5) the zoom selector returns zoom level 10, and the PNG path
    computes its geometry at that zoom. *)
Theorem C3_scenario_zoom_is_10 :
  (forall padding, choose_zoom scenario_points padding = Ok 10) /\
  exists g, png_geometry scenario_points = Ok g /\ geo_zoom g = 10.
Proof.
  split; [apply choose_zoom_scenario|].
  unfold png_geometry. rewrite scenario_points_sorted.
  rewrite choose_zoom_scenario. unfold scenario_points at 1 2 3 4. cbn [map py_min py_max bind fst snd].
  match goal with
  | |- context [tiles_for_bbox ?a ?b ?c ?d ?z] =>
      destruct (tiles_for_bbox_total a b c d z) as [tiles ->]
  end.
  cbn [bind]. eexists. split; reflexivity.
Qed.

(** C3, as claimed, fails: the selector does not return zoom 12 on the
    scenario points. *)
Lemma C3_scenario_zoom_not_12 :
  ~ (choose_zoom scenario_points choose_zoom_padding_default = Ok 12).
Proof.
  rewrite choose_zoom_scenario. intros H. discriminate H.
Qed.

(** ** The geometry of the PNG path *)

Section Geometry.
Local Open Scope R_scope.





Lemma choose_zoom_total (points : list point) (padding : R) :
  points <> [] -> exists z, choose_zoom points padding = Ok z /\ (4 <= z <= 12)%Z.
Proof.
  intros Hne. unfold choose_zoom.
  destruct (choose_zoom_loop_spec points (range_down MAX_ZOOM (MIN_ZOOM - 1)) Hne)
    as (z & Hz & Hcase).
  exists z. split; [exact Hz|]. rewrite range_down_candidates in Hcase.
  destruct Hcase as [(pre & post & Hsplit & _)|[-> _]]; [|unfold MIN_ZOOM; lia].
  assert (Hin : In z [12; 11; 10; 9; 8; 7; 6; 5; 4]%Z).
  { rewrite Hsplit. apply in_or_app. right. left. reflexivity. }
  simpl in Hin. lia.
Qed.

Lemma sorted_coordinates (points : list point) (proj : point -> R) (v : R) :
  In v (map proj (py_sorted point_ltb points)) <-> In v (map proj points).
Proof.
  rewrite !in_map_iff. split; intros (p & Hp & Hin); exists p; split; auto;
    apply (py_sorted_in point_ltb points p); exact Hin.
Qed.

(** Lines 108-130 on a non-empty list of points: nothing raises; the
    box handed to the tile locator is the coordinate range of the
    points widened by the padding; the zoom is the one [choose_zoom]
    returns on the sorted points. *)
Lemma png_geometry_spec (points : list point) :
  points <> [] ->
  exists g lo_lat hi_lat lo_lon hi_lon,
    png_geometry points = Ok g /\
    geo_points g = py_sorted point_ltb points /\
    (In lo_lat (map fst points) /\ forall v, In v (map fst points) -> lo_lat <= v) /\
    (In hi_lat (map fst points) /\ forall v, In v (map fst points) -> v <= hi_lat) /\
    (In lo_lon (map snd points) /\ forall v, In v (map snd points) -> lo_lon <= v) /\
    (In hi_lon (map snd points) /\ forall v, In v (map snd points) -> v <= hi_lon) /\
    geo_bbox g = (lo_lon - 0.1, lo_lat - 0.1, hi_lon + 0.1, hi_lat + 0.1) /\
    choose_zoom (geo_points g) choose_zoom_padding_default = Ok (geo_zoom g) /\
    (4 <= geo_zoom g <= 12)%Z /\
    tiles_for_bbox (lo_lon - 0.1) (lo_lat - 0.1) (hi_lon + 0.1) (hi_lat + 0.1)
      (geo_zoom g) = Ok (geo_tiles g).
Proof.
  intros Hne. unfold png_geometry.
  set (sp := py_sorted point_ltb points).
  assert (Hsp : sp <> []) by (apply py_sorted_nonempty, Hne).
  assert (Hlats : map fst sp <> []) by (destruct sp; [congruence|discriminate]).
  assert (Hlons : map snd sp <> []) by (destruct sp; [congruence|discriminate]).
  destruct (py_min_spec _ Hlats) as (lo_lat & -> & Hlo_lat & Hlo_lat').
  destruct (py_max_spec _ Hlats) as (hi_lat & -> & Hhi_lat & Hhi_lat').
  destruct (py_min_spec _ Hlons) as (lo_lon & -> & Hlo_lon & Hlo_lon').
  destruct (py_max_spec _ Hlons) as (hi_lon & -> & Hhi_lon & Hhi_lon').
  destruct (choose_zoom_total sp choose_zoom_padding_default Hsp) as (z & Hz & Hrange).
  rewrite Hz. cbn [bind]. unfold PADDING.
  destruct (tiles_for_bbox_total (lo_lon - 0.1) (lo_lat - 0.1) (hi_lon + 0.1)
              (hi_lat + 0.1) z) as [tiles Ht].
  rewrite Ht. cbn [bind].
  eexists _, lo_lat, hi_lat, lo_lon, hi_lon.
  split; [reflexivity|]. cbn [geo_points geo_bbox geo_zoom geo_tiles].
  split; [reflexivity|].
  unfold sp in *.
  repeat split; try (apply (proj1 (sorted_coordinates _ _ _)); assumption);
    try (intros v Hv; apply (proj2 (sorted_coordinates _ _ _)) in Hv; auto);
    try assumption; try lia.
Qed.

End Geometry.


(** ** Tile cache and compositor *)

Section Compositor.

(** An available tile is produced without failure, and what was
    available stays so. *)
Lemma get_tile_available (w : world) (t : tile) (s : session) :
  tile_available w t ->
  exists im w', get_tile (tz t) (tx t) (ty t) s w = (Ok im, w') /\
                forall t', tile_available w t' -> tile_available w' t'.
Proof.
  unfold tile_available at 1, get_tile.
  destruct (tile_cache w !! (tz t, tx t, ty t)) as [b|] eqn:Hc.
  - intros [im ->]. exists (convert_RGB im), w. split; [reflexivity|auto].
  - intros (status & im & Hsrv & Hst).
    unfold bindM, send_request, liftM, write_cache, retM. cbn.
    rewrite Hsrv, Hst. cbn.
    eexists im, _. split; [reflexivity|].
    intros t' Ht'. unfold tile_available in *. cbn.
    destruct (decide ((tz t', tx t', ty t') = (tz t, tx t, ty t))) as [->|Hne].
    + rewrite lookup_insert_eq. eauto.
    + rewrite lookup_insert_ne by congruence. exact Ht'.
Qed.

(** The outcome of a call, by cases on the cache and on the server. *)
Lemma get_tile_cases (z x y : Z) (s : session) (w : world) :
  let r := {| req_tile := (z, x, y); req_user_agent := user_agent s; req_timeout := 20 |} in
  let w1 := {| tile_server := tile_server w; tile_cache := tile_cache w;
               requests := requests w ++ [r]; written := written w |} in
  match tile_cache w !! (z, x, y) with
  | Some (Encoded im) => get_tile z x y s w = (Ok (convert_RGB im), w)
  | Some Garbage => get_tile z x y s w = (Raise UnidentifiedImageError, w)
  | None =>
      match tile_server w (z, x, y) with
      | NoReply => get_tile z x y s w = (Raise RequestException, w1)
      | Reply status content =>
          if (400 <=? status) && (status <? 600)
          then get_tile z x y s w = (Raise (HTTPError status), w1)
          else match content with
               | Garbage => get_tile z x y s w = (Raise UnidentifiedImageError, w1)
               | Encoded im =>
                   get_tile z x y s w =
                     (Ok im, {| tile_server := tile_server w;
                                tile_cache := <[(z, x, y) := Encoded im]> (tile_cache w);
                                requests := requests w ++ [r];
                                written := written w |})
               end
      end
  end.
Proof.
  intros r w1. unfold get_tile.
  destruct (tile_cache w !! (z, x, y)) as [[im|]|] eqn:Hc; try reflexivity.
  unfold bindM, send_request, liftM, write_cache, retM, raiseM, raise_for_status.
  cbn [req_tile tile_server].
  destruct (tile_server w (z, x, y)) as [status [im|]|]; try reflexivity;
    destruct ((400 <=? status) && (status <? 600)); reflexivity.
Qed.

Lemma get_tile_server (z x y : Z) (s : session) (w : world) :
  tile_server (snd (get_tile z x y s w)) = tile_server w.
Proof.
  pose proof (get_tile_cases z x y s w) as Hc. cbv zeta in Hc.
  destruct (tile_cache w !! (z, x, y)) as [[im0|]|].
  1, 2: rewrite Hc; reflexivity.
  destruct (tile_server w (z, x, y)) as [status content|].
  2: rewrite Hc; reflexivity.
  destruct ((400 <=? status) && (status <? 600)).
  1: rewrite Hc; reflexivity.
  destruct content as [im0|]; rewrite Hc; reflexivity.
Qed.

Lemma get_tile_other_keys (z x y : Z) (s : session) (w : world) (k : Z * Z * Z) :
  k <> (z, x, y) ->
  tile_cache (snd (get_tile z x y s w)) !! k = tile_cache w !! k.
Proof.
  intros Hne.
  pose proof (get_tile_cases z x y s w) as Hc. cbv zeta in Hc.
  destruct (tile_cache w !! (z, x, y)) as [[im0|]|].
  1, 2: rewrite Hc; reflexivity.
  destruct (tile_server w (z, x, y)) as [status content|].
  2: rewrite Hc; reflexivity.
  destruct ((400 <=? status) && (status <? 600)).
  1: rewrite Hc; reflexivity.
  destruct content as [im0|]; rewrite Hc; [|reflexivity].
  cbn. apply lookup_insert_ne. congruence.
Qed.

(** What a call returns depends on the world only through the cache
    entry of the tile and the answer of the server for it. *)
Lemma get_tile_local (z x y : Z) (s : session) (w1 w2 : world) :
  tile_cache w1 !! (z, x, y) = tile_cache w2 !! (z, x, y) ->
  tile_server w1 (z, x, y) = tile_server w2 (z, x, y) ->
  fst (get_tile z x y s w1) = fst (get_tile z x y s w2).
Proof.
  intros Hcache Hsrv.
  pose proof (get_tile_cases z x y s w1) as H1. cbv zeta in H1.
  pose proof (get_tile_cases z x y s w2) as H2. cbv zeta in H2.
  rewrite Hcache, Hsrv in H1.
  destruct (tile_cache w2 !! (z, x, y)) as [[im0|]|].
  1, 2: rewrite H1, H2; reflexivity.
  destruct (tile_server w2 (z, x, y)) as [status content|].
  2: rewrite H1, H2; reflexivity.
  destruct ((400 <=? status) && (status <? 600)).
  1: rewrite H1, H2; reflexivity.
  destruct content as [im0|]; rewrite H1, H2; reflexivity.
Qed.

Lemma stitched_length (s : session) (min_x min_y : Z) (w w' : world)
    (tiles : list tile) (ops : list draw_op) :
  stitched s min_x min_y w tiles ops w' -> length ops = length tiles.
Proof.
  induction 1; cbn; congruence.
Qed.

(** When no tile occurs twice, every paste holds the image that
    [get_tile] returns for its tile from the world at the start. *)
Lemma stitched_from_start (s : session) (min_x min_y : Z) (w w' : world)
    (tiles : list tile) (ops : list draw_op) :
  stitched s min_x min_y w tiles ops w' ->
  forall w0,
    (forall k, tile_server w0 k = tile_server w k) ->
    (forall t, In t tiles -> tile_cache w0 !! tile_key t = tile_cache w !! tile_key t) ->
    List.NoDup (map tile_key tiles) ->
    Forall2 (pastes_tile w0 s min_x min_y) tiles ops.
Proof.
  induction 1 as [w|w w1 w' t rest im ops Hget Hrest IH]; intros w0 Hsrv Hcache Hnd.
  - constructor.
  - cbn [map] in Hnd. apply List.NoDup_cons_iff in Hnd as [Hnot Hnd].
    constructor.
    + exists im. split; [|reflexivity].
      rewrite (get_tile_local _ _ _ s w0 w).
      * rewrite Hget. reflexivity.
      * apply (Hcache t). left. reflexivity.
      * apply Hsrv.
    + apply IH; [| |exact Hnd].
      * intros k. rewrite Hsrv.
        pose proof (get_tile_server (tz t) (tx t) (ty t) s w) as Hs.
        rewrite Hget in Hs. cbn [snd] in Hs. rewrite Hs. reflexivity.
      * intros t' Ht'. rewrite (Hcache t' (or_intror Ht')).
        pose proof (get_tile_other_keys (tz t) (tx t) (ty t) s w (tile_key t')) as Hk.
        rewrite Hget in Hk. cbn [snd] in Hk. symmetry. apply Hk.
        intros Heq. apply Hnot. change (tz t, tx t, ty t) with (tile_key t) in Heq.
        rewrite <- Heq. apply in_map. exact Ht'.
Qed.

Lemma paste_tiles_spec (tiles : list tile) (min_x min_y : Z) (s : session)
    (img : canvas) (w : world) :
  (forall t, In t tiles -> tile_available w t) ->
  exists cv w' pastes,
    paste_tiles tiles min_x min_y s img w = (Ok cv, w') /\
    cv_size cv = cv_size img /\
    cv_ops cv = cv_ops img ++ pastes /\
    stitched s min_x min_y w tiles pastes w'.
Proof.
  revert img w. induction tiles as [|t rest IH]; intros img w Hav.
  - exists img, w, []. cbn. rewrite app_nil_r. repeat split. constructor.
  - destruct (get_tile_available w t s (Hav t (or_introl eq_refl)))
      as (im & w1 & Hget & Hkeep).
    cbn [paste_tiles]. unfold bindM at 1. rewrite Hget.
    destruct (IH (paste img im ((tx t - min_x) * TILE_SIZE, (ty t - min_y) * TILE_SIZE)) w1)
      as (cv & w' & pastes & Hrun & Hsize & Hops & Hall).
    { intros t' Ht'. apply Hkeep, Hav. right. exact Ht'. }
    exists cv, w', (Paste im ((tx t - min_x) * 256, (ty t - min_y) * 256) :: pastes).
    split; [exact Hrun|]. split; [exact Hsize|]. split.
    + rewrite Hops. cbn. rewrite <- app_assoc. reflexivity.
    + apply (stitched_cons s min_x min_y w w1 w' t rest im pastes Hget Hall).
Qed.

Lemma draw_markers_spec (points : list point) (zoom min_x min_y : Z) (img : canvas) :
  exists cv markers,
    draw_markers points zoom min_x min_y img = Ok cv /\
    cv_size cv = cv_size img /\
    cv_ops cv = cv_ops img ++ markers /\
    Forall is_ellipse markers /\ length markers = length points.
Proof.
  revert img. induction points as [|[lat lon] rest IH]; intros img.
  - exists img, []. cbn. rewrite app_nil_r. repeat split. constructor.
  - cbn [draw_markers]. rewrite lonlat_to_pixels_total. cbn [bind].
    unfold ProjectionSpec.project.
    match goal with
    | |- context [draw_markers rest zoom min_x min_y ?img'] =>
        destruct (IH img') as (cv & markers & Hrun & Hsize & Hops & Hall & Hlen)
    end.
    cbn in Hops.
    eexists cv, (_ :: markers). split; [exact Hrun|]. split; [exact Hsize|].
    split; [rewrite Hops, <- app_assoc; reflexivity|].
    split; [constructor; [exact I|exact Hall]|cbn; congruence].
Qed.

Lemma tile_coordinates_nonempty (tiles : list tile) (f : tile -> Z) :
  tiles <> [] -> map f tiles <> [].
Proof. destruct tiles; [congruence|discriminate]. Qed.

End Compositor.

(** C4: for a non-empty tile list whose tiles can all be obtained, the
    compositor returns a canvas of exactly (max_x - min_x + 1) * 256 by
    (max_y - min_y + 1) * 256 pixels, where min and max are the extreme
    tile indices, and it pastes one image per tile, the tile (x, y) at
    pixel offset ((x - min_x) * 256, (y - min_y) * 256), before it draws
    the markers.  The image of each paste is the one that [get_tile]
    returned for that tile, in the world left by the fetches before it;
    when no tile occurs twice in the list, it is the image that
    [get_tile] returns for the tile from the world at the start. *)
Theorem C4_canvas_size_and_offsets (tiles : list tile) (points : list point)
    (zoom : Z) (w : world) :
  tiles <> [] ->
  (forall t, In t tiles -> tile_available w t) ->
  exists cv w' min_x max_x min_y max_y order pastes markers,
    compose tiles points zoom w = (Ok cv, w') /\
    is_min min_x (map tx tiles) /\ is_max max_x (map tx tiles) /\
    is_min min_y (map ty tiles) /\ is_max max_y (map ty tiles) /\
    cv_size cv = ((max_x - min_x + 1) * 256, (max_y - min_y + 1) * 256) /\
    Permutation order tiles /\
    cv_ops cv = pastes ++ markers /\
    stitched map_session min_x min_y w order pastes w' /\
    (List.NoDup (map tile_key tiles) ->
     Forall2 (pastes_tile w map_session min_x min_y) order pastes) /\
    Forall is_ellipse markers.
Proof.
  intros Hne Hav. unfold compose.
  destruct (py_minZ_spec _ (tile_coordinates_nonempty tiles tx Hne)) as (min_x & Hminx & Hmin_x).
  destruct (py_maxZ_spec _ (tile_coordinates_nonempty tiles tx Hne)) as (max_x & Hmaxx & Hmax_x).
  destruct (py_minZ_spec _ (tile_coordinates_nonempty tiles ty Hne)) as (min_y & Hminy & Hmin_y).
  destruct (py_maxZ_spec _ (tile_coordinates_nonempty tiles ty Hne)) as (max_y & Hmaxy & Hmax_y).
  unfold bindM, liftM. rewrite Hminx, Hmaxx, Hminy, Hmaxy.
  fold map_session.
  set (img := Image_new ((max_x - min_x + 1) * TILE_SIZE, (max_y - min_y + 1) * TILE_SIZE)).
  destruct (paste_tiles_spec (py_sorted tile_ltb tiles) min_x min_y map_session img w)
    as (cv1 & w' & pastes & Hrun & Hsize & Hops & Hall).
  { intros t Ht. apply Hav. apply (py_sorted_in tile_ltb tiles t). exact Ht. }
  rewrite Hrun.
  destruct (draw_markers_spec points zoom min_x min_y cv1)
    as (cv & markers & Hdraw & Hsize' & Hops' & Hell & _).
  rewrite Hdraw.
  exists cv, w', min_x, max_x, min_y, max_y, (py_sorted tile_ltb tiles), pastes, markers.
  split; [reflexivity|]. repeat (split; [assumption|]).
  split; [rewrite Hsize', Hsize; reflexivity|].
  split; [apply py_sorted_perm|].
  split; [rewrite Hops', Hops; reflexivity|].
  split; [exact Hall|]. split; [|exact Hell].
  intros Hnd. apply (stitched_from_start _ _ _ _ _ _ _ Hall); [reflexivity|reflexivity|].
  apply (Permutation_NoDup (l := map tile_key tiles)); [|exact Hnd].
  apply Permutation_map. symmetry. apply py_sorted_perm.
Qed.

(** ** Two calls of [get_tile] *)

Section Cache.

Lemma convert_RGB_idempotent (im : image) :
  convert_RGB (convert_RGB im) = convert_RGB im.
Proof. reflexivity. Qed.

Lemma convert_RGB_of_RGB (im : image) :
  im_mode im = ModeRGB -> convert_RGB im = im.
Proof.
  destruct im as [m sz d]. cbn. intros ->. reflexivity.
Qed.

(** A cache hit sends nothing and leaves the world as it is. *)
Lemma get_tile_hit (z x y : Z) (s : session) (w : world) (b : blob) :
  tile_cache w !! (z, x, y) = Some b ->
  get_tile z x y s w = (im <- Image_open b ;; Ok (convert_RGB im), w).
Proof. intros H. unfold get_tile. rewrite H. reflexivity. Qed.

(** After a call that returned, a second call for the same tile sends
    no request and returns the RGB conversion of what the first call
    returned; the first call sent at most one request. *)
Lemma get_tile_twice (z x y : Z) (s : session) (w w1 : world) (im : image) :
  get_tile z x y s w = (Ok im, w1) ->
  get_tile z x y s w1 = (Ok (convert_RGB im), w1) /\
  (requests w1 = requests w \/ exists r, requests w1 = requests w ++ [r]).
Proof.
  unfold get_tile at 1.
  destruct (tile_cache w !! (z, x, y)) as [b|] eqn:Hc.
  - unfold liftM. destruct b as [im0|]; cbn; intros H; inversion H; subst.
    split; [|left; reflexivity].
    rewrite (get_tile_hit _ _ _ _ _ _ Hc). reflexivity.
  - unfold bindM, send_request, liftM, write_cache, retM, raiseM. cbn.
    destruct (tile_server w (z, x, y)) as [status content|]; [|discriminate].
    destruct (raise_for_status status); [|discriminate].
    destruct content as [im0|]; cbn; [|discriminate].
    intros H. inversion H; subst. split; [|right; eauto].
    erewrite get_tile_hit by (cbn; apply lookup_insert_eq). reflexivity.
Qed.

End Cache.

(** C5, on a fresh cache and a server that answers with a palette
    image: the two calls send one request in total and the second call
    is served from the cache, but the first call returns the palette
    image as decoded while the second returns its RGB conversion, so the
    two results differ in mode and in raw bytes. *)
Theorem C5_get_tile_twice_palette :
  exists first second w1 w2,
    get_tile 10 533 362 map_session fresh_world = (Ok first, w1) /\
    get_tile 10 533 362 map_session w1 = (Ok second, w2) /\
    length (requests w2) = 1%nat /\
    first = palette_tile /\
    second = convert_RGB palette_tile /\
    im_mode first <> im_mode second /\
    Z.of_nat (length (im_data first)) = 65536 /\
    Z.of_nat (length (im_data second)) = 196608 /\
    im_data first <> im_data second.
Proof.
  assert (Hfirst : exists w1,
             get_tile 10 533 362 map_session fresh_world = (Ok palette_tile, w1) /\
             length (requests w1) = 1%nat).
  { unfold get_tile, fresh_world. cbn [tile_cache]. rewrite lookup_empty.
    eexists. split; reflexivity. }
  destruct Hfirst as (w1 & H1 & Hreq).
  destruct (get_tile_twice _ _ _ _ _ _ _ H1) as [H2 _].
  assert (Hl1 : Z.of_nat (length (im_data palette_tile)) = 65536)
    by (vm_compute; reflexivity).
  assert (Hl2 : Z.of_nat (length (im_data (convert_RGB palette_tile))) = 196608)
    by (vm_compute; reflexivity).
  exists palette_tile, (convert_RGB palette_tile), w1, w1.
  repeat split; try assumption.
  - discriminate.
  - intros Heq. rewrite Heq in Hl1. rewrite Hl1 in Hl2. discriminate Hl2.
Qed.

(** ** Latitudes beyond the map *)

Section Polar.
Local Open Scope R_scope.

Lemma cos_lower_bound (u : R) : 0 <= u <= 1 -> 1 - u * u / 2 <= cos u.
Proof.
  intros [H0 H1]. replace u with (2 * (u / 2)) at 3 by lra.
  rewrite cos_2a_sin.
  assert (Hs : 0 <= sin (u / 2) <= u / 2).
  { pose proof PI2_1 as Hpi. split.
    - apply sin_ge_0; lra.
    - destruct (Req_dec u 0) as [->|Hne].
      + replace (0 / 2) with 0 by lra. rewrite sin_0. lra.
      + left. apply sin_lt_x. lra. }
  nra.
Qed.

Lemma sin_near_pole (lat : R) : 89 <= lat <= 90 -> 0.99975 <= sin (lat * PI / 180).
Proof.
  intros Hlat. rewrite <- cos_shift.
  pose proof PI_RGT_0 as Hpi. pose proof PI_4 as Hpi4.
  set (u := PI / 2 - lat * PI / 180).
  assert (Hu : 0 <= u <= 1 / 45) by (unfold u; split; nra).
  pose proof (cos_lower_bound u ltac:(lra)). nra.
Qed.

Lemma exp_8_bound : exp 8 <= 6561.
Proof.
  pose proof exp_le_3 as H1. pose proof (exp_pos 1) as P1.
  assert (H2 : exp 2 <= 9).
  { replace 2 with (1 + 1) by lra. rewrite exp_plus. nra. }
  pose proof (exp_pos 2) as P2.
  assert (H4 : exp 4 <= 81).
  { replace 4 with (2 + 2) by lra. rewrite exp_plus. nra. }
  pose proof (exp_pos 4) as P4.
  replace 8 with (4 + 4) by lra. rewrite exp_plus. nra.
Qed.

Lemma ln_above_two_pi (r : R) : 6561 < r -> 2 * PI < ln r.
Proof.
  intros Hr. pose proof PI_4 as Hpi4. pose proof exp_8_bound as He.
  assert (8 < ln r); [|lra].
  rewrite <- (ln_exp 8). apply ln_increasing; [apply exp_pos|lra].
Qed.

Lemma y_of_siny_north : forall z, y_of_siny 0.99975 z < 0.
Proof.
  intros z. unfold y_of_siny. pose proof (scale_pos z) as Hsc.
  pose proof PI_RGT_0 as Hpi.
  replace ((1 + 0.99975) / (1 - 0.99975)) with 7999 by lra.
  pose proof (ln_above_two_pi 7999 ltac:(lra)) as Hln.
  assert (Hq : 0.5 < ln 7999 / (4 * PI)).
  { apply Rmult_lt_reg_r with (4 * PI); [lra|].
    unfold Rdiv. rewrite Rmult_assoc, Rinv_l by lra. lra. }
  nra.
Qed.

Lemma y_of_siny_south : forall z, ProjectionSpec.scale z < y_of_siny (-0.99975) z.
Proof.
  intros z. unfold y_of_siny. pose proof (scale_pos z) as Hsc.
  pose proof PI_RGT_0 as Hpi.
  replace ((1 + -0.99975) / (1 - -0.99975)) with (/ 7999) by lra.
  rewrite ln_Rinv by lra.
  pose proof (ln_above_two_pi 7999 ltac:(lra)) as Hln.
  assert (Hq : 0.5 < ln 7999 / (4 * PI)).
  { apply Rmult_lt_reg_r with (4 * PI); [lra|].
    unfold Rdiv. rewrite Rmult_assoc, Rinv_l by lra. lra. }
  replace (- ln 7999 / (4 * PI)) with (- (ln 7999 / (4 * PI))) by (unfold Rdiv; ring).
  nra.
Qed.

(** From 89 degrees on, the projection leaves the world raster. *)
Lemma north_off_map (lat : R) (z : Z) : 89 <= lat <= 90 -> ProjectionSpec.y lat z < 0.
Proof.
  intros Hlat. rewrite y_as_siny.
  pose proof (sin_near_pole lat Hlat) as Hs.
  pose proof (siny_range lat) as Hr.
  assert (Hc : 0.99975 <= ProjectionSpec.siny lat).
  { unfold ProjectionSpec.siny. rewrite <- (clamp_id 0.99975) by lra.
    apply clamp_mono, Hs. }
  pose proof (y_of_siny_antitone z 0.99975 (ProjectionSpec.siny lat)
                ltac:(lra) Hc ltac:(lra)).
  pose proof (y_of_siny_north z). lra.
Qed.

Lemma south_off_map (lat : R) (z : Z) :
  -90 <= lat <= -89 -> ProjectionSpec.scale z < ProjectionSpec.y lat z.
Proof.
  intros Hlat. rewrite y_as_siny.
  pose proof (sin_near_pole (- lat) ltac:(lra)) as Hs.
  replace (- lat * PI / 180) with (- (lat * PI / 180)) in Hs by lra.
  rewrite sin_neg in Hs.
  pose proof (siny_range lat) as Hr.
  assert (Hc : ProjectionSpec.siny lat <= -0.99975).
  { unfold ProjectionSpec.siny. rewrite <- (clamp_id (-0.99975)) by lra.
    apply clamp_mono. lra. }
  pose proof (y_of_siny_antitone z (ProjectionSpec.siny lat) (-0.99975)
                ltac:(lra) Hc ltac:(lra)).
  pose proof (y_of_siny_south z). lra.
Qed.

End Polar.

(** ** Tile locator *)

Section Locator.
Local Open Scope R_scope.

Lemma in_range_up (lo hi v : Z) : In v (range_up lo hi) <-> (lo <= v < hi)%Z.
Proof.
  unfold range_up. rewrite in_map_iff. split.
  - intros (i & <- & Hi). apply in_seq in Hi. lia.
  - intros Hv. exists (Z.to_nat (v - lo)). split; [lia|].
    apply in_seq. lia.
Qed.

Lemma Int_part_bounds (r : R) : IZR (Int_part r) <= r < IZR (Int_part r) + 1.
Proof. destruct (base_Int_part r). lra. Qed.

Lemma Int_part_monotone (a b : R) : a <= b -> (Int_part a <= Int_part b)%Z.
Proof.
  intros Hab. pose proof (Int_part_bounds a). pose proof (Int_part_bounds b).
  assert (Hlt : IZR (Int_part a) < IZR (Int_part b + 1)) by (rewrite plus_IZR; lra).
  apply lt_IZR in Hlt. lia.
Qed.

Lemma Int_part_range (r : R) (lo hi : Z) :
  IZR lo <= r < IZR hi -> (lo <= Int_part r < hi)%Z.
Proof.
  intros [Hlo Hhi]. pose proof (Int_part_bounds r). split.
  - assert (H' : IZR lo < IZR (Int_part r + 1)) by (rewrite plus_IZR; lra).
    apply lt_IZR in H'. lia.
  - apply lt_IZR. lra.
Qed.

Lemma tile_index_monotone (a b : R) (zoom : Z) :
  a <= b -> (tile_index a zoom <= tile_index b zoom)%Z.
Proof.
  intros Hab. unfold tile_index.
  assert (Int_part (a / IZR TILE_SIZE) <= Int_part (b / IZR TILE_SIZE))%Z.
  { apply Int_part_monotone. unfold TILE_SIZE.
    apply Rmult_le_compat_r; [lra|exact Hab]. }
  lia.
Qed.

Lemma scale_IZR (zoom : Z) : (0 <= zoom)%Z -> ProjectionSpec.scale zoom = 256 * IZR (2 ^ zoom).
Proof.
  intros Hz. unfold ProjectionSpec.scale. f_equal.
  rewrite <- (Z2Nat.id zoom) by exact Hz.
  rewrite <- pow_powerRZ, pow_IZR. reflexivity.
Qed.

(** Inside the world raster the clamp of [tile_index] is idle. *)
Lemma tile_index_on_raster (pixel : R) (zoom : Z) :
  (0 <= zoom)%Z -> 0 <= pixel < ProjectionSpec.scale zoom ->
  tile_index pixel zoom = Int_part (pixel / 256) /\
  (0 <= Int_part (pixel / 256) <= 2 ^ zoom - 1)%Z.
Proof.
  intros Hz Hp. rewrite scale_IZR in Hp by exact Hz.
  assert (Hr : (0 <= Int_part (pixel / 256) < 2 ^ zoom)%Z).
  { apply Int_part_range. split.
    - apply Rmult_le_reg_r with 256; [lra|].
      unfold Rdiv. rewrite Rmult_assoc, Rinv_l by lra. lra.
    - apply Rmult_lt_reg_r with 256; [lra|].
      unfold Rdiv. rewrite Rmult_assoc, Rinv_l by lra. lra. }
  unfold tile_index, TILE_SIZE. split; lia.
Qed.

Lemma pixel_in_own_tile (px py : R) (zoom : Z) :
  in_footprint (tile_of_pixel px py zoom) px py.
Proof.
  unfold in_footprint, tile_of_pixel, TILE_SIZE. cbn [tx ty].
  pose proof (Int_part_bounds (px / 256)). pose proof (Int_part_bounds (py / 256)).
  rewrite !mult_IZR, !plus_IZR. split; split; lra.
Qed.

(** A footprint determines the tile indices. *)
Lemma footprint_indices (t : tile) (px py : R) :
  in_footprint t px py -> tx t = Int_part (px / 256) /\ ty t = Int_part (py / 256).
Proof.
  unfold in_footprint, TILE_SIZE. rewrite !mult_IZR, !plus_IZR.
  intros [[Hx1 Hx2] [Hy1 Hy2]].
  split; apply Int_part_spec; split; lra.
Qed.

Lemma on_world_map_zoom (p : point) (zoom : Z) :
  on_world_map p ->
  0 <= pixel_x zoom p < ProjectionSpec.scale zoom /\
  0 <= pixel_y zoom p < ProjectionSpec.scale zoom.
Proof.
  unfold on_world_map, pixel_x, pixel_y, ProjectionSpec.x, ProjectionSpec.y.
  pose proof (scale_pos zoom) as Hs.
  assert (H0 : ProjectionSpec.scale 0 = 256) by (unfold ProjectionSpec.scale; simpl; lra).
  rewrite !H0. intros [Hx Hy]. split; split; nra.
Qed.

(** The tile list of the locator, as a set. *)
Lemma tiles_for_bbox_spec (min_lon min_lat max_lon max_lat : R) (zoom : Z) :
  exists tiles,
    tiles_for_bbox min_lon min_lat max_lon max_lat zoom = Ok tiles /\
    forall t, In t tiles <->
      tz t = zoom /\
      (tile_index (ProjectionSpec.x min_lon zoom) zoom <= tx t
         <= tile_index (ProjectionSpec.x max_lon zoom) zoom)%Z /\
      (tile_index (ProjectionSpec.y max_lat zoom) zoom <= ty t
         <= tile_index (ProjectionSpec.y min_lat zoom) zoom)%Z.
Proof.
  unfold tiles_for_bbox. rewrite !lonlat_to_pixels_total. cbn [bind].
  unfold ProjectionSpec.project. cbn [fst snd].
  eexists. split; [reflexivity|].
  intros [x y z]. cbn [tx ty tz]. rewrite in_flat_map. split.
  - intros (x' & Hx & Hin). apply in_map_iff in Hin as (y' & Heq & Hy).
    inversion Heq; subst. apply in_range_up in Hx. apply in_range_up in Hy.
    repeat split; lia.
  - intros (-> & Hx & Hy). exists x. split; [apply in_range_up; lia|].
    apply in_map_iff. exists y. split; [reflexivity|apply in_range_up; lia].
Qed.

End Locator.

Section Coverage.
Local Open Scope R_scope.

Lemma tile_index_nonneg (pixel : R) (zoom : Z) : (0 <= tile_index pixel zoom)%Z.
Proof. unfold tile_index. lia. Qed.

(** A point of the map with a latitude in [-90, 90] stays a degree
    away from the poles. *)
Lemma on_world_map_latitude (p : point) :
  -90 <= fst p <= 90 -> on_world_map p -> -89 < fst p < 89.
Proof.
  intros Hdom [_ Hy]. unfold pixel_y in Hy.
  assert (H0 : ProjectionSpec.scale 0 = 256) by (unfold ProjectionSpec.scale; simpl; lra).
  split.
  - destruct (Rlt_dec (-89) (fst p)) as [H|H]; [exact H|].
    pose proof (south_off_map (fst p) 0 ltac:(lra)). lra.
  - destruct (Rlt_dec (fst p) 89) as [H|H]; [exact H|].
    pose proof (north_off_map (fst p) 0 ltac:(lra)). lra.
Qed.

Lemma geometry_tiles (points : list point) :
  points <> [] ->
  exists g lo_lat hi_lat lo_lon hi_lon,
    png_geometry points = Ok g /\
    (In lo_lat (map fst points) /\ forall v, In v (map fst points) -> lo_lat <= v) /\
    (In hi_lat (map fst points) /\ forall v, In v (map fst points) -> v <= hi_lat) /\
    (In lo_lon (map snd points) /\ forall v, In v (map snd points) -> lo_lon <= v) /\
    (In hi_lon (map snd points) /\ forall v, In v (map snd points) -> v <= hi_lon) /\
    geo_bbox g = (lo_lon - 0.1, lo_lat - 0.1, hi_lon + 0.1, hi_lat + 0.1) /\
    (4 <= geo_zoom g <= 12)%Z /\
    forall t, In t (geo_tiles g) <->
      tz t = geo_zoom g /\
      (tile_index (ProjectionSpec.x (lo_lon - 0.1) (geo_zoom g)) (geo_zoom g) <= tx t
         <= tile_index (ProjectionSpec.x (hi_lon + 0.1) (geo_zoom g)) (geo_zoom g))%Z /\
      (tile_index (ProjectionSpec.y (hi_lat + 0.1) (geo_zoom g)) (geo_zoom g) <= ty t
         <= tile_index (ProjectionSpec.y (lo_lat - 0.1) (geo_zoom g)) (geo_zoom g))%Z.
Proof.
  intros Hne.
  destruct (png_geometry_spec points Hne)
    as (g & lo_lat & hi_lat & lo_lon & hi_lon & Hg & _ & Hlo_lat & Hhi_lat &
        Hlo_lon & Hhi_lon & Hbox & _ & Hz & Htiles).
  destruct (tiles_for_bbox_spec (lo_lon - 0.1) (lo_lat - 0.1) (hi_lon + 0.1)
              (hi_lat + 0.1) (geo_zoom g)) as (tiles & Ht & Hin).
  rewrite Htiles in Ht. injection Ht as <-.
  exists g, lo_lat, hi_lat, lo_lon, hi_lon. repeat (split; [assumption|]).
  exact Hin.
Qed.

End Coverage.

(** C7, as the code has it: for a non-empty set of points with latitudes
    in [-90, 90] that all lie on the world map, the tiles computed at the
    chosen zoom from the coordinate range of the points widened by 0.1
    degrees on each side form a contiguous rectangle of tile indices, and
    the projected pixel of every point lies in the footprint of one of
    these tiles. *)
Theorem C7_tiles_cover_points (points : list point) :
  points <> [] ->
  (forall p, In p points -> (-90 <= fst p <= 90)%R) ->
  (forall p, In p points -> on_world_map p) ->
  exists g lo_lat hi_lat lo_lon hi_lon,
    png_geometry points = Ok g /\
    (In lo_lat (map fst points) /\ forall v, In v (map fst points) -> (lo_lat <= v)%R) /\
    (In hi_lat (map fst points) /\ forall v, In v (map fst points) -> (v <= hi_lat)%R) /\
    (In lo_lon (map snd points) /\ forall v, In v (map snd points) -> (lo_lon <= v)%R) /\
    (In hi_lon (map snd points) /\ forall v, In v (map snd points) -> (v <= hi_lon)%R) /\
    geo_bbox g = ((lo_lon - 0.1)%R, (lo_lat - 0.1)%R, (hi_lon + 0.1)%R, (hi_lat + 0.1)%R) /\
    is_rectangle (geo_tiles g) (geo_zoom g) /\
    forall p, In p points -> covered g p.
Proof.
  intros Hne Hdom Hmap.
  destruct (geometry_tiles points Hne)
    as (g & lo_lat & hi_lat & lo_lon & hi_lon & Hg & Hlo_lat & Hhi_lat &
        Hlo_lon & Hhi_lon & Hbox & Hz & Hin).
  exists g, lo_lat, hi_lat, lo_lon, hi_lon. repeat (split; [assumption|]).
  set (z := geo_zoom g) in *.
  assert (Hlat : forall v, In v (map fst points) -> (-89 < v < 89)%R).
  { intros v Hv. apply in_map_iff in Hv as (p & <- & Hp).
    apply on_world_map_latitude; auto. }
  destruct Hlo_lat as [Hlo_lat Hlo_lat'], Hhi_lat as [Hhi_lat Hhi_lat'].
  destruct Hlo_lon as [Hlo_lon Hlo_lon'], Hhi_lon as [Hhi_lon Hhi_lon'].
  pose proof (Hlat _ Hlo_lat) as Hlo. pose proof (Hlat _ Hhi_lat) as Hhi.
  pose proof (Hlo_lat' _ Hhi_lat) as Hlat_le. pose proof (Hlo_lon' _ Hhi_lon) as Hlon_le.
  split.
  - exists (tile_index (ProjectionSpec.x (lo_lon - 0.1) z) z),
           (tile_index (ProjectionSpec.x (hi_lon + 0.1) z) z),
           (tile_index (ProjectionSpec.y (hi_lat + 0.1) z) z),
           (tile_index (ProjectionSpec.y (lo_lat - 0.1) z) z).
    split; [apply tile_index_monotone, x_monotone; lra|].
    split; [apply tile_index_monotone, y_antitone; lra|].
    exact Hin.
  - intros [lat lon] Hp. unfold covered. cbn [fst snd]. fold z.
    rewrite lonlat_to_pixels_total.
    exists (ProjectionSpec.x lon z), (ProjectionSpec.y lat z),
           (tile_of_pixel (ProjectionSpec.x lon z) (ProjectionSpec.y lat z) z).
    split; [reflexivity|]. split; [|apply pixel_in_own_tile].
    destruct (on_world_map_zoom (lat, lon) z (Hmap _ Hp)) as [Hx Hy].
    unfold pixel_x, pixel_y in Hx, Hy. cbn [fst snd] in Hx, Hy.
    destruct (tile_index_on_raster _ z ltac:(lia) Hx) as [Hix _].
    destruct (tile_index_on_raster _ z ltac:(lia) Hy) as [Hiy _].
    assert (Hlat_in : In lat (map fst points)) by (apply (in_map fst _ _ Hp)).
    assert (Hlon_in : In lon (map snd points)) by (apply (in_map snd _ _ Hp)).
    pose proof (Hlo_lat' _ Hlat_in). pose proof (Hhi_lat' _ Hlat_in).
    pose proof (Hlo_lon' _ Hlon_in). pose proof (Hhi_lon' _ Hlon_in).
    pose proof (Hlat _ Hlat_in).
    apply Hin. unfold tile_of_pixel. cbn [tx ty tz].
    rewrite <- Hix, <- Hiy.
    split; [reflexivity|]. split; split.
    + apply tile_index_monotone, x_monotone. lra.
    + apply tile_index_monotone, x_monotone. lra.
    + apply tile_index_monotone, y_antitone; lra.
    + apply tile_index_monotone, y_antitone; lra.
Qed.

(** C7, as claimed for every non-empty set of points, fails: the point at
    latitude 89, longitude 0 is projected above the world raster, where
    no tile lies. *)
Lemma C7_polar_point_uncovered :
  ~ (forall points : list point, points <> [] ->
       exists g, png_geometry points = Ok g /\
                 is_rectangle (geo_tiles g) (geo_zoom g) /\
                 forall p, In p points -> covered g p).
Proof.
  intros Hclaim.
  destruct (Hclaim [(89%R, 0%R)] ltac:(discriminate)) as (g & Hg & _ & Hcov).
  destruct (geometry_tiles [(89%R, 0%R)] ltac:(discriminate))
    as (g' & lo_lat & hi_lat & lo_lon & hi_lon & Hg' & _ & _ & _ & _ & _ & _ & Hin).
  rewrite Hg in Hg'. injection Hg' as <-.
  destruct (Hcov (89%R, 0%R) (or_introl eq_refl)) as (px & py & t & Hpix & Ht & Hfoot).
  cbn [fst snd] in Hpix. rewrite lonlat_to_pixels_total in Hpix.
  injection Hpix as <- <-.
  apply Hin in Ht as (_ & _ & Hty & _).
  pose proof (tile_index_nonneg (ProjectionSpec.y (hi_lat + 0.1) (geo_zoom g)) (geo_zoom g)) as H0.
  pose proof (north_off_map 89 (geo_zoom g) ltac:(lra)) as Hy.
  destruct Hfoot as [_ [Hlow _]].
  assert (Hneg : (IZR (ty t * TILE_SIZE) < IZR 0)%R) by lra.
  apply lt_IZR in Hneg. unfold TILE_SIZE in Hneg. lia.
Qed.

(** ** The empty activation list *)

(** C8: on an empty activation list the PNG path raises the error
    "No activation coordinates found" at once: the world is left as it
    was, so no request has been sent, nothing has been cached and no file
    has been written. *)
Theorem C8_empty_activation_list (output_filename : string) (w : world) :
  exists w',
    output_to_png [] output_filename w =
      (Raise (RuntimeError "No activation coordinates found"), w') /\
    w' = w /\
    requests w' = requests w /\
    tile_cache w' = tile_cache w /\
    written w' = written w.
Proof.
  exists w. repeat split; reflexivity.
Qed.

(** ** Instances *)

Lemma origin_on_world_map : on_world_map origin_point.
Proof.
  unfold on_world_map, pixel_x, pixel_y, origin_point. cbn [fst snd].
  pose proof (project_origin 0) as H. unfold ProjectionSpec.project in H.
  injection H as -> ->. simpl. lra.
Qed.

Lemma fresh_world_available (t : tile) : tile_available fresh_world t.
Proof.
  unfold tile_available, fresh_world. cbn [tile_cache tile_server].
  rewrite lookup_empty. exists 200, palette_tile. split; reflexivity.
Qed.

Lemma C4_canvas_size_and_offsets_witness :
  [Tile 533 362 10] <> [] /\
  (forall t, In t [Tile 533 362 10] -> tile_available fresh_world t) /\
  exists cv w' min_x max_x min_y max_y order pastes markers,
    compose [Tile 533 362 10] [origin_point] 10 fresh_world = (Ok cv, w') /\
    is_min min_x (map tx [Tile 533 362 10]) /\ is_max max_x (map tx [Tile 533 362 10]) /\
    is_min min_y (map ty [Tile 533 362 10]) /\ is_max max_y (map ty [Tile 533 362 10]) /\
    cv_size cv = ((max_x - min_x + 1) * 256, (max_y - min_y + 1) * 256) /\
    Permutation order [Tile 533 362 10] /\
    cv_ops cv = pastes ++ markers /\
    stitched map_session min_x min_y fresh_world order pastes w' /\
    Forall2 (pastes_tile fresh_world map_session min_x min_y) order pastes /\
    Forall is_ellipse markers.
Proof.
  split; [discriminate|]. split; [intros t _; apply fresh_world_available|].
  destruct (C4_canvas_size_and_offsets [Tile 533 362 10] [origin_point] 10 fresh_world
              ltac:(discriminate) (fun t _ => fresh_world_available t))
    as (cv & w' & min_x & max_x & min_y & max_y & order & pastes & markers &
        H1 & H2 & H3 & H4 & H5 & H6 & H7 & H8 & H9 & H10 & H11).
  exists cv, w', min_x, max_x, min_y, max_y, order, pastes, markers.
  repeat (split; [assumption|]).
  split; [|exact H11]. apply H10.
  apply List.NoDup_cons; [intros []|apply List.NoDup_nil].
Defined.

Lemma C7_tiles_cover_points_witness :
  [origin_point] <> [] /\
  (forall p, In p [origin_point] -> (-90 <= fst p <= 90)%R) /\
  (forall p, In p [origin_point] -> on_world_map p) /\
  exists g, png_geometry [origin_point] = Ok g /\
            is_rectangle (geo_tiles g) (geo_zoom g) /\
            forall p, In p [origin_point] -> covered g p.
Proof.
  assert (Hdom : forall p, In p [origin_point] -> (-90 <= fst p <= 90)%R).
  { intros p [<-|[]]. unfold origin_point. cbn [fst]. lra. }
  assert (Hmap : forall p, In p [origin_point] -> on_world_map p).
  { intros p [<-|[]]. apply origin_on_world_map. }
  split; [discriminate|]. split; [exact Hdom|]. split; [exact Hmap|].
  destruct (C7_tiles_cover_points [origin_point] ltac:(discriminate) Hdom Hmap)
    as (g & _ & _ & _ & _ & Hg & _ & _ & _ & _ & _ & Hrect & Hcov).
  exists g. auto.
Defined.

Lemma C9_png_order_independent_witness :
  Permutation [summit_a; summit_b] [summit_b; summit_a] /\
  output_to_png [summit_a; summit_b] "sota.png" fresh_world =
  output_to_png [summit_b; summit_a] "sota.png" fresh_world.
Proof.
  split; [apply perm_swap|].
  apply (C9_png_order_independent [summit_a; summit_b] [summit_b; summit_a]).
  apply perm_swap.
Defined.


(** * Further properties of the code *)

(** ** Projection: zoom scaling *)

Section ProjectionLaws.
Local Open Scope R_scope.

Lemma scale_succ (z : Z) : ProjectionSpec.scale (z + 1) = 2 * ProjectionSpec.scale z.
Proof.
  unfold ProjectionSpec.scale. rewrite powerRZ_add by lra.
  rewrite powerRZ_1. ring.
Qed.

Lemma x_succ (lon : R) (z : Z) : ProjectionSpec.x lon (z + 1) = 2 * ProjectionSpec.x lon z.
Proof. unfold ProjectionSpec.x. rewrite scale_succ. lra. Qed.

Lemma y_succ (lat : R) (z : Z) : ProjectionSpec.y lat (z + 1) = 2 * ProjectionSpec.y lat z.
Proof. unfold ProjectionSpec.y. rewrite scale_succ. lra. Qed.

End ProjectionLaws.

(** X1: one more zoom level doubles both pixel coordinates of every
    point, for every integer zoom. *)
Theorem X1_projection_doubles_per_zoom (lon lat : R) (z : Z) :
  exists x y,
    lonlat_to_pixels lon lat z = Ok (x, y) /\
    lonlat_to_pixels lon lat (z + 1) = Ok ((2 * x)%R, (2 * y)%R).
Proof.
  rewrite !lonlat_to_pixels_total. unfold ProjectionSpec.project.
  do 2 eexists. split; [reflexivity|].
  rewrite x_succ, y_succ. reflexivity.
Qed.

(** ** Zoom selector: edge cases and the effect of the zoom *)

Section ZoomLaws.
Local Open Scope R_scope.

Lemma choose_zoom_empty (padding : R) :
  choose_zoom [] padding =
    Raise (ValueError "not enough values to unpack (expected 2, got 0)").
Proof. reflexivity. Qed.

Lemma extent_nonneg (vs : list R) : 0 <= extent vs.
Proof.
  destruct vs as [|v r]; [simpl; lra|].
  destruct (extent_spec (v :: r) ltac:(discriminate)) as [Hle _].
  pose proof (Hle v v (or_introl eq_refl) (or_introl eq_refl)). lra.
Qed.

Lemma extent_constant (vs : list R) (c : R) :
  (forall v, In v vs -> v = c) -> extent vs = 0.
Proof.
  intros Hc. destruct vs as [|v r]; [reflexivity|].
  destruct (extent_spec (v :: r) ltac:(discriminate)) as [_ (a & b & Ha & Hb & ->)].
  rewrite (Hc a Ha), (Hc b Hb). lra.
Qed.

Lemma fold_Rmax_scale (k : R) (l : list R) (a : R) :
  0 <= k -> fold_left Rmax (map (Rmult k) l) (k * a) = k * fold_left Rmax l a.
Proof.
  intros Hk. revert a. induction l as [|b l IH]; intros a; simpl; [reflexivity|].
  rewrite <- IH. f_equal. apply RmaxRmult. exact Hk.
Qed.

Lemma fold_Rmin_scale (k : R) (l : list R) (a : R) :
  0 <= k -> fold_left Rmin (map (Rmult k) l) (k * a) = k * fold_left Rmin l a.
Proof.
  intros Hk. revert a. induction l as [|b l IH]; intros a; simpl; [reflexivity|].
  rewrite <- IH. f_equal. unfold Rmin.
  destruct (Rle_dec (k * a) (k * b)), (Rle_dec a b); try reflexivity; nra.
Qed.

Lemma extent_scale (k : R) (vs : list R) :
  0 <= k -> extent (map (Rmult k) vs) = k * extent vs.
Proof.
  intros Hk. destruct vs as [|v r]; simpl; [lra|].
  rewrite fold_Rmax_scale, fold_Rmin_scale by exact Hk. ring.
Qed.

Lemma bbox_width_succ (points : list point) (z : Z) :
  bbox_width points (z + 1) = 2 * bbox_width points z.
Proof.
  unfold bbox_width. rewrite <- extent_scale by lra. rewrite map_map.
  f_equal. apply map_ext. intros p. unfold pixel_x. apply x_succ.
Qed.

Lemma bbox_height_succ (points : list point) (z : Z) :
  bbox_height points (z + 1) = 2 * bbox_height points z.
Proof.
  unfold bbox_height. rewrite <- extent_scale by lra. rewrite map_map.
  f_equal. apply map_ext. intros p. unfold pixel_y. apply y_succ.
Qed.

Lemma scale_at_least (z : Z) : (4 <= z)%Z -> 4096 <= ProjectionSpec.scale z.
Proof.
  intros Hz. rewrite scale_IZR by lia.
  assert (H : (2 ^ 4 <= 2 ^ z)%Z) by (apply Z.pow_le_mono_r; lia).
  apply IZR_le in H. change (2 ^ 4)%Z with 16%Z in H. lra.
Qed.

Lemma x_difference (lon1 lon2 : R) (z : Z) :
  ProjectionSpec.x lon1 z - ProjectionSpec.x lon2 z
  = (lon1 - lon2) * ProjectionSpec.scale z / 360.
Proof. unfold ProjectionSpec.x, Rdiv. ring. Qed.

End ZoomLaws.

(** X3: the only exception [choose_zoom] can raise is the unpacking
    [ValueError], and it raises it exactly on the empty sequence. *)
Theorem X3_choose_zoom_raises_only_on_empty (points : list point) (padding : R) (e : exn) :
  choose_zoom points padding = Raise e <->
  points = [] /\ e = ValueError "not enough values to unpack (expected 2, got 0)".
Proof.
  split.
  - destruct points as [|p points].
    + rewrite choose_zoom_empty. intros H. injection H as <-. auto.
    + destruct (choose_zoom_total (p :: points) padding ltac:(discriminate)) as (z & -> & _).
      discriminate.
  - intros [-> ->]. apply choose_zoom_empty.
Qed.

(** X4: when all the points coincide (in particular for a single point)
    the pixel bounding box is empty at every zoom and [choose_zoom]
    returns the maximum zoom 12. *)
Theorem X4_choose_zoom_coincident_points (p : point) (points : list point) (padding : R) :
  points <> [] -> (forall q, In q points -> q = p) ->
  choose_zoom points padding = Ok 12.
Proof.
  intros Hne Hall. unfold choose_zoom. rewrite range_down_candidates.
  cbn [choose_zoom_loop]. rewrite pixel_bbox_size_eq by exact Hne. cbn [bind].
  assert (Hw : bbox_width points 12 = 0%R).
  { apply (extent_constant _ (pixel_x 12 p)). intros v Hv.
    apply in_map_iff in Hv as (q & <- & Hq). rewrite (Hall q Hq). reflexivity. }
  assert (Hh : bbox_height points 12 = 0%R).
  { apply (extent_constant _ (pixel_y 12 p)). intros v Hv.
    apply in_map_iff in Hv as (q & <- & Hq). rewrite (Hall q Hq). reflexivity. }
  rewrite Hw, Hh.
  replace (Rleb 0 TARGET_WIDTH) with true
    by (symmetry; apply Rleb_true; unfold TARGET_WIDTH; lra).
  replace (Rleb 0 TARGET_HEIGHT) with true
    by (symmetry; apply Rleb_true; unfold TARGET_HEIGHT; lra).
  reflexivity.
Qed.

Lemma X4_choose_zoom_coincident_points_witness :
  [origin_point; origin_point] <> [] /\
  (forall q, In q [origin_point; origin_point] -> q = origin_point) /\
  choose_zoom [origin_point; origin_point] 0.1%R = Ok 12.
Proof.
  assert (H : forall q, In q [origin_point; origin_point] -> q = origin_point).
  { intros q [<-|[<-|[]]]; reflexivity. }
  split; [discriminate|]. split; [exact H|].
  apply (X4_choose_zoom_coincident_points origin_point); [discriminate|exact H].
Defined.

(** X5: on a non-empty sequence one more zoom level doubles the width
    and the height of the pixel bounding box, which are never negative;
    hence a sequence that fits the target at one zoom fits it at the
    zoom below. *)
Theorem X5_bbox_doubles_per_zoom (points : list point) (z : Z) :
  points <> [] ->
  (exists w h,
     pixel_bbox_size points z = Ok (w, h) /\
     pixel_bbox_size points (z + 1) = Ok ((2 * w)%R, (2 * h)%R) /\
     (0 <= w)%R /\ (0 <= h)%R) /\
  (fits points (z + 1) -> fits points z).
Proof.
  intros Hne.
  pose proof (extent_nonneg (map (pixel_x z) points)) as Hw.
  pose proof (extent_nonneg (map (pixel_y z) points)) as Hh.
  fold (bbox_width points z) in Hw. fold (bbox_height points z) in Hh.
  split.
  - exists (bbox_width points z), (bbox_height points z).
    rewrite !pixel_bbox_size_eq by exact Hne.
    rewrite bbox_width_succ, bbox_height_succ. auto.
  - rewrite !fits_iff by exact Hne.
    rewrite bbox_width_succ, bbox_height_succ. lra.
Qed.

Lemma X5_bbox_doubles_per_zoom_witness :
  scenario_points <> [] /\
  (fits scenario_points (10 + 1) -> fits scenario_points 10).
Proof.
  split; [discriminate|].
  apply (X5_bbox_doubles_per_zoom scenario_points 10). discriminate.
Defined.

(** X6: when two of the points are more than 106 degrees of longitude
    apart, the bounding box is wider than 1200 pixels at every candidate
    zoom, and [choose_zoom] falls back to zoom 4 although the points do
    not fit there either. *)
Theorem X6_choose_zoom_fallback (points : list point) (p q : point) (padding : R) :
  In p points -> In q points -> (106 < snd p - snd q)%R ->
  choose_zoom points padding = Ok 4 /\ ~ fits points 4.
Proof.
  intros Hp Hq Hfar.
  assert (Hne : points <> []) by (intros ->; destruct Hp).
  assert (Hwide : forall z, 4 <= z -> ~ fits points z).
  { intros z Hz. rewrite fits_iff by exact Hne. intros [Hw _].
    unfold bbox_width in Hw.
    destruct (extent_spec (map (pixel_x z) points)) as [Hle _];
      [destruct points; [contradiction|discriminate]|].
    pose proof (Hle _ _ (in_map (pixel_x z) _ _ Hp) (in_map (pixel_x z) _ _ Hq)) as Hpq.
    change (pixel_x z p) with (ProjectionSpec.x (snd p) z) in Hpq.
    change (pixel_x z q) with (ProjectionSpec.x (snd q) z) in Hpq.
    rewrite x_difference in Hpq.
    pose proof (scale_at_least z Hz) as Hs.
    set (S := ProjectionSpec.scale z) in *.
    assert (Hprod : (106 * 4096 < (snd p - snd q) * S)%R) by nra.
    lra. }
  split; [|apply Hwide; lia].
  unfold choose_zoom.
  destruct (choose_zoom_loop_spec points (range_down MAX_ZOOM (MIN_ZOOM - 1)) Hne)
    as (z & Hz & [(pre & post & Hsplit & Hfit & _)|[-> _]]); [|exact Hz].
  exfalso. apply (Hwide z); [|exact Hfit].
  rewrite range_down_candidates in Hsplit.
  assert (Hin : In z [12; 11; 10; 9; 8; 7; 6; 5; 4]).
  { rewrite Hsplit. apply in_or_app. right. left. reflexivity. }
  simpl in Hin. lia.
Qed.

Lemma X6_choose_zoom_fallback_witness :
  In (0%R, 120%R) [(0%R, 0%R); (0%R, 120%R)] /\
  In (0%R, 0%R) [(0%R, 0%R); (0%R, 120%R)] /\
  choose_zoom [(0%R, 0%R); (0%R, 120%R)] 0.1%R = Ok 4.
Proof.
  split; [right; left; reflexivity|]. split; [left; reflexivity|].
  apply (X6_choose_zoom_fallback _ (0%R, 120%R) (0%R, 0%R)).
  - right. left. reflexivity.
  - left. reflexivity.
  - cbn [snd]. lra.
Defined.

(** ** Tile cache: outcomes and effects of one call *)

Section TileCalls.

(** A call that returns an image found the tile available. *)
Lemma get_tile_returns_available (t : tile) (s : session) (w w' : world) (im : image) :
  get_tile (tz t) (tx t) (ty t) s w = (Ok im, w') -> tile_available w t.
Proof.
  intros H. unfold tile_available.
  pose proof (get_tile_cases (tz t) (tx t) (ty t) s w) as Hc. cbv zeta in Hc.
  destruct (tile_cache w !! (tz t, tx t, ty t)) as [[im0|]|].
  - eauto.
  - rewrite Hc in H. discriminate.
  - destruct (tile_server w (tz t, tx t, ty t)) as [status content|].
    + destruct ((400 <=? status) && (status <? 600)) eqn:E.
      { rewrite Hc in H. discriminate. }
      destruct content as [im0|]; [|rewrite Hc in H; discriminate].
      exists status, im0. split; [reflexivity|].
      unfold raise_for_status. rewrite E. reflexivity.
    + rewrite Hc in H. discriminate.
Qed.

End TileCalls.

(** X7: a call of [get_tile] returns an image exactly when the tile is
    cached as a decodable file, or is absent from the cache while the
    server answers, with a status outside 400..599, a decodable body. *)
Theorem X7_get_tile_succeeds_iff (t : tile) (s : session) (w : world) :
  (exists im w', get_tile (tz t) (tx t) (ty t) s w = (Ok im, w')) <->
  tile_available w t.
Proof.
  split.
  - intros (im & w' & H). apply (get_tile_returns_available t s w w' im H).
  - intros H. destruct (get_tile_available w t s H) as (im & w' & Hg & _). eauto.
Qed.

(** X8: a call of [get_tile] never removes or changes a cache entry, never
    touches the entry of another tile, leaves the cache as it was
    whenever it raises, and writes no output file. *)
Theorem X8_get_tile_cache_frame (z x y : Z) (s : session) (w : world) :
  let out := get_tile z x y s w in
  (forall k b, tile_cache w !! k = Some b -> tile_cache (snd out) !! k = Some b) /\
  (forall k, k <> (z, x, y) -> tile_cache (snd out) !! k = tile_cache w !! k) /\
  (forall e, fst out = Raise e -> tile_cache (snd out) = tile_cache w) /\
  written (snd out) = written w.
Proof.
  intros out. subst out.
  pose proof (get_tile_cases z x y s w) as Hc. cbv zeta in Hc.
  destruct (tile_cache w !! (z, x, y)) as [[im0|]|] eqn:Hk.
  1, 2: rewrite Hc; cbn; auto.
  destruct (tile_server w (z, x, y)) as [status content|].
  2: rewrite Hc; cbn; auto.
  destruct ((400 <=? status) && (status <? 600)).
  1: rewrite Hc; cbn; auto.
  destruct content as [im0|].
  2: rewrite Hc; cbn; auto.
  rewrite Hc. cbn. repeat split.
  - intros k b Hb. destruct (decide (k = (z, x, y))) as [->|Hne]; [congruence|].
    rewrite lookup_insert_ne by congruence. exact Hb.
  - intros k Hne. apply lookup_insert_ne. congruence.
  - discriminate.
Qed.

(** X9: a call for a cached tile leaves the world untouched, so it sends
    nothing and never consults the server; a call for a tile that is not
    cached sends exactly one request, for that tile, with the session's
    User-Agent and a timeout of 20, whatever the outcome. *)
Theorem X9_get_tile_requests (z x y : Z) (s : session) (w : world) :
  let out := get_tile z x y s w in
  (forall b, tile_cache w !! (z, x, y) = Some b ->
     snd out = w /\ fst out = (im <- Image_open b ;; Ok (convert_RGB im))) /\
  (tile_cache w !! (z, x, y) = None ->
     requests (snd out) =
       requests w ++ [{| req_tile := (z, x, y); req_user_agent := user_agent s;
                         req_timeout := 20 |}]).
Proof.
  intros out. subst out.
  pose proof (get_tile_cases z x y s w) as Hc. cbv zeta in Hc.
  destruct (tile_cache w !! (z, x, y)) as [[im0|]|] eqn:Hk.
  1, 2: rewrite Hc; split; [intros b Hb; injection Hb as <-; auto|discriminate].
  split; [discriminate|]. intros _.
  destruct (tile_server w (z, x, y)) as [status content|].
  2: rewrite Hc; reflexivity.
  destruct ((400 <=? status) && (status <? 600)).
  1: rewrite Hc; reflexivity.
  destruct content as [im0|]; rewrite Hc; reflexivity.
Qed.

(** X10: after a call that returned an image, the tile is in the cache as
    a decodable file whose RGB conversion is that of the returned image,
    and every later call returns this conversion without changing the
    world. *)
Theorem X10_get_tile_fills_cache (t : tile) (s : session) (w : world) :
  tile_available w t ->
  exists im w' cached,
    get_tile (tz t) (tx t) (ty t) s w = (Ok im, w') /\
    tile_cache w' !! (tz t, tx t, ty t) = Some (Encoded cached) /\
    convert_RGB cached = convert_RGB im /\
    get_tile (tz t) (tx t) (ty t) s w' = (Ok (convert_RGB im), w').
Proof.
  intros Hav. unfold tile_available in Hav.
  pose proof (get_tile_cases (tz t) (tx t) (ty t) s w) as Hc. cbv zeta in Hc.
  destruct (tile_cache w !! (tz t, tx t, ty t)) as [b|] eqn:Hk.
  - destruct Hav as [im0 ->].
    exists (convert_RGB im0), w, im0. rewrite Hc. repeat split; exact Hk.
  - destruct Hav as (status & im0 & Hsrv & Hst). rewrite Hsrv in Hc.
    unfold raise_for_status in Hst.
    destruct ((400 <=? status) && (status <? 600)); [discriminate|].
    eexists im0, _, im0. split; [exact Hc|].
    split; [apply lookup_insert_eq|]. split; [reflexivity|].
    erewrite get_tile_hit by (cbn [tile_cache]; apply lookup_insert_eq).
    reflexivity.
Qed.

Lemma X10_get_tile_fills_cache_witness :
  tile_available fresh_world (Tile 533 362 10) /\
  exists im w' cached,
    get_tile 10 533 362 map_session fresh_world = (Ok im, w') /\
    tile_cache w' !! (10, 533, 362) = Some (Encoded cached) /\
    convert_RGB cached = convert_RGB im /\
    get_tile 10 533 362 map_session w' = (Ok (convert_RGB im), w').
Proof.
  split; [apply fresh_world_available|].
  apply (X10_get_tile_fills_cache (Tile 533 362 10) map_session fresh_world).
  apply fresh_world_available.
Defined.

(** ** Compositor: when it succeeds and what it sends *)

Section ComposeRuns.

Lemma tile_available_key (w : world) (t t' : tile) :
  (tz t', tx t', ty t') = (tz t, tx t, ty t) ->
  tile_available w t' <-> tile_available w t.
Proof. unfold tile_available. intros ->. reflexivity. Qed.

(** Entries of the cache survive a call. *)
Lemma get_tile_keeps_entries (z x y : Z) (s : session) (w w' : world) (r : result image) :
  get_tile z x y s w = (r, w') ->
  forall k b, tile_cache w !! k = Some b -> tile_cache w' !! k = Some b.
Proof.
  intros H k b Hb.
  pose proof (get_tile_cases z x y s w) as Hc. cbv zeta in Hc.
  destruct (tile_cache w !! (z, x, y)) as [[im0|]|] eqn:Hk.
  1, 2: rewrite Hc in H; inversion H; subst; exact Hb.
  destruct (tile_server w (z, x, y)) as [status content|].
  2: rewrite Hc in H; inversion H; subst; exact Hb.
  destruct ((400 <=? status) && (status <? 600)).
  1: rewrite Hc in H; inversion H; subst; exact Hb.
  destruct content as [im0|]; rewrite Hc in H; inversion H; subst; [|exact Hb].
  cbn. destruct (decide (k = (z, x, y))) as [->|Hne]; [congruence|].
  rewrite lookup_insert_ne by congruence. exact Hb.
Qed.

(** What was available before a call that returned was available. *)
Lemma get_tile_available_before (t : tile) (s : session) (w w' : world) (im : image) :
  get_tile (tz t) (tx t) (ty t) s w = (Ok im, w') ->
  forall t', tile_available w' t' -> tile_available w t'.
Proof.
  intros H t' Hav.
  pose proof (get_tile_cases (tz t) (tx t) (ty t) s w) as Hc. cbv zeta in Hc.
  destruct (tile_cache w !! (tz t, tx t, ty t)) as [[im0|]|] eqn:Hk.
  1: rewrite Hc in H; inversion H; subst; exact Hav.
  1: rewrite Hc in H; discriminate.
  destruct (tile_server w (tz t, tx t, ty t)) as [status content|] eqn:Hsrv.
  2: rewrite Hc in H; discriminate.
  destruct ((400 <=? status) && (status <? 600)) eqn:E.
  1: rewrite Hc in H; discriminate.
  destruct content as [im0|]; rewrite Hc in H; [|discriminate].
  inversion H; subst. clear H.
  destruct (decide ((tz t', tx t', ty t') = (tz t, tx t, ty t))) as [Heq|Hne].
  - apply (tile_available_key w t t' Heq). unfold tile_available.
    rewrite Hk, Hsrv. eexists status, _. split; [reflexivity|].
    unfold raise_for_status. rewrite E. reflexivity.
  - unfold tile_available in *. cbn in Hav.
    rewrite lookup_insert_ne in Hav by congruence. exact Hav.
Qed.

Lemma paste_tiles_returns_inv (tiles : list tile) (min_x min_y : Z) (s : session)
    (img cv : canvas) (w w' : world) :
  paste_tiles tiles min_x min_y s img w = (Ok cv, w') ->
  forall t, In t tiles -> tile_available w t.
Proof.
  revert img w. induction tiles as [|t0 rest IH]; intros img w H t Ht; [destruct Ht|].
  cbn [paste_tiles] in H. unfold bindM at 1 in H.
  destruct (get_tile (tz t0) (tx t0) (ty t0) s w) as [[im|e] w1] eqn:Hg; [|discriminate].
  destruct Ht as [<-|Ht].
  - apply (get_tile_returns_available _ s w w1 im Hg).
  - apply (get_tile_available_before t0 s w w1 im Hg). apply (IH _ _ H t Ht).
Qed.

End ComposeRuns.

Section ComposeEffects.

Lemma get_tile_returns_cached (t : tile) (s : session) (w w' : world) (im : image) :
  get_tile (tz t) (tx t) (ty t) s w = (Ok im, w') -> tile_cached w' t.
Proof.
  intros H. unfold tile_cached, tile_key.
  pose proof (get_tile_cases (tz t) (tx t) (ty t) s w) as Hc. cbv zeta in Hc.
  destruct (tile_cache w !! (tz t, tx t, ty t)) as [[im0|]|] eqn:Hk.
  - rewrite Hc in H. inversion H; subst. eauto.
  - rewrite Hc in H. discriminate.
  - destruct (tile_server w (tz t, tx t, ty t)) as [status content|].
    2: rewrite Hc in H; discriminate.
    destruct ((400 <=? status) && (status <? 600)).
    1: rewrite Hc in H; discriminate.
    destruct content as [im0|]; rewrite Hc in H; [|discriminate].
    inversion H; subst. cbn. eexists. apply lookup_insert_eq.
Qed.

Lemma paste_tiles_keeps_entries (tiles : list tile) (min_x min_y : Z) (s : session)
    (img : canvas) (w : world) :
  forall k b, tile_cache w !! k = Some b ->
    tile_cache (snd (paste_tiles tiles min_x min_y s img w)) !! k = Some b.
Proof.
  revert img w. induction tiles as [|t rest IH]; intros img w k b Hb; [exact Hb|].
  cbn [paste_tiles]. unfold bindM at 1.
  destruct (get_tile (tz t) (tx t) (ty t) s w) as [[im|e] w1] eqn:Hg.
  - apply IH. apply (get_tile_keeps_entries _ _ _ _ _ _ _ Hg). exact Hb.
  - cbn. apply (get_tile_keeps_entries _ _ _ _ _ _ _ Hg). exact Hb.
Qed.

(** After a stitching that returned, every tile is cached. *)
Lemma paste_tiles_fills (tiles : list tile) (min_x min_y : Z) (s : session)
    (img cv : canvas) (w w' : world) :
  paste_tiles tiles min_x min_y s img w = (Ok cv, w') ->
  forall t, In t tiles -> tile_cached w' t.
Proof.
  revert img w. induction tiles as [|t0 rest IH]; intros img w H t Ht; [destruct Ht|].
  cbn [paste_tiles] in H. unfold bindM at 1 in H.
  destruct (get_tile (tz t0) (tx t0) (ty t0) s w) as [[im|e] w1] eqn:Hg; [|discriminate].
  destruct Ht as [<-|Ht]; [|apply (IH _ _ H t Ht)].
  destruct (get_tile_returns_cached t0 s w w1 im Hg) as [im0 Him0].
  exists im0.
  pose proof (paste_tiles_keeps_entries rest min_x min_y s
                (paste img im ((tx t0 - min_x) * TILE_SIZE, (ty t0 - min_y) * TILE_SIZE))
                w1 _ _ Him0) as Hkeep.
  rewrite H in Hkeep. exact Hkeep.
Qed.

(** On a world where every tile is cached, stitching changes nothing. *)
Lemma paste_tiles_cached (tiles : list tile) (min_x min_y : Z) (s : session)
    (img : canvas) (w : world) :
  (forall t, In t tiles -> tile_cached w t) ->
  exists cv, paste_tiles tiles min_x min_y s img w = (Ok cv, w).
Proof.
  revert img. induction tiles as [|t rest IH]; intros img Hall; [eexists; reflexivity|].
  destruct (Hall t (or_introl eq_refl)) as [im Him]. unfold tile_key in Him.
  cbn [paste_tiles]. unfold bindM at 1.
  rewrite (get_tile_hit _ _ _ _ _ _ Him). cbn [Image_open bind].
  apply IH. intros t' Ht'. apply Hall. right. exact Ht'.
Qed.

Lemma tile_request_of_weaken (w : world) (t : tile) (rest : list tile) (ua : string)
    (q : request) :
  tile_request_of w rest ua q -> tile_request_of w (t :: rest) ua q.
Proof.
  intros (Hua & Hto & Hc & t' & Ht' & Hk). repeat split; try assumption.
  exists t'. split; [right; exact Ht'|exact Hk].
Qed.

(** The requests of a stitching, whatever its outcome. *)
Lemma paste_tiles_requests (tiles : list tile) (min_x min_y : Z) (s : session)
    (img : canvas) (w : world) :
  exists new,
    requests (snd (paste_tiles tiles min_x min_y s img w)) = requests w ++ new /\
    Forall (tile_request_of w tiles (user_agent s)) new /\
    List.NoDup (map req_tile new).
Proof.
  revert img w. induction tiles as [|t rest IH]; intros img w.
  - exists []. cbn. rewrite app_nil_r. split; [reflexivity|]. split; [constructor|apply List.NoDup_nil].
  - cbn [paste_tiles]. unfold bindM at 1.
    pose proof (get_tile_cases (tz t) (tx t) (ty t) s w) as Hc. cbv zeta in Hc.
    assert (Hlift : forall new,
               Forall (tile_request_of w rest (user_agent s)) new ->
               Forall (tile_request_of w (t :: rest) (user_agent s)) new).
    { intros new. apply List.Forall_impl.
      intros q. apply tile_request_of_weaken. }
    destruct (tile_cache w !! (tz t, tx t, ty t)) as [[im0|]|] eqn:Hk.
    + rewrite Hc.
      destruct (IH (paste img (convert_RGB im0)
                      ((tx t - min_x) * TILE_SIZE, (ty t - min_y) * TILE_SIZE)) w)
        as (new & Hreq & Hall & Hnd).
      exists new. auto.
    + rewrite Hc. exists []. cbn. rewrite app_nil_r.
      split; [reflexivity|]. split; [constructor|apply List.NoDup_nil].
    + set (r := {| req_tile := (tz t, tx t, ty t); req_user_agent := user_agent s;
                   req_timeout := 20 |}) in *.
      assert (Hr : tile_request_of w (t :: rest) (user_agent s) r).
      { split; [reflexivity|]. split; [reflexivity|]. split; [exact Hk|].
        exists t. split; [left|]; reflexivity. }
      assert (Hone : forall w1, requests w1 = requests w ++ [r] ->
                 exists new,
                   requests w1 = requests w ++ new /\
                   Forall (tile_request_of w (t :: rest) (user_agent s)) new /\
                   List.NoDup (map req_tile new)).
      { intros w1 Hw1. exists [r]. cbn. split; [exact Hw1|].
        split; [constructor; [exact Hr|constructor]|].
        apply List.NoDup_cons; [intros []|apply List.NoDup_nil]. }
      destruct (tile_server w (tz t, tx t, ty t)) as [status content|].
      2: rewrite Hc; cbn [snd]; apply Hone; reflexivity.
      destruct ((400 <=? status) && (status <? 600)).
      1: rewrite Hc; cbn [snd]; apply Hone; reflexivity.
      destruct content as [im0|].
      2: rewrite Hc; cbn [snd]; apply Hone; reflexivity.
      rewrite Hc.
      match goal with
      | |- context [paste_tiles rest min_x min_y s ?img' ?w2] =>
          destruct (IH img' w2) as (new & Hreq & Hall & Hnd)
      end.
      cbn [requests tile_cache] in Hreq.
      exists (r :: new). split; [rewrite Hreq, <- app_assoc; reflexivity|].
      assert (Hnew : forall q, In q new ->
                 tile_request_of w rest (user_agent s) q /\ req_tile q <> req_tile r).
      { intros q Hq. rewrite List.Forall_forall in Hall.
        destruct (Hall q Hq) as (Hua & Hto & Hcq & Ht).
        cbn [tile_cache] in Hcq.
        assert (Hne : req_tile q <> (tz t, tx t, ty t)).
        { intros Heq. rewrite Heq, lookup_insert_eq in Hcq. discriminate. }
        rewrite lookup_insert_ne in Hcq by congruence.
        split; [|exact Hne]. repeat split; assumption. }
      split.
      * constructor; [exact Hr|]. apply Hlift. apply List.Forall_forall.
        intros q Hq. apply Hnew, Hq.
      * cbn [map]. apply List.NoDup_cons; [|exact Hnd].
        intros Hin. apply in_map_iff in Hin as (q & Heq & Hq).
        destruct (Hnew q Hq) as [_ Hne]. congruence.
Qed.

(** [compose] on a non-empty tile list, split at the stitching. *)
Lemma compose_unfold (tiles : list tile) (points : list point) (zoom : Z) (w : world) :
  tiles <> [] ->
  exists min_x max_x min_y max_y,
    is_min min_x (map tx tiles) /\ is_max max_x (map tx tiles) /\
    is_min min_y (map ty tiles) /\ is_max max_y (map ty tiles) /\
    compose tiles points zoom w =
      match paste_tiles (py_sorted tile_ltb tiles) min_x min_y map_session
              (Image_new ((max_x - min_x + 1) * TILE_SIZE, (max_y - min_y + 1) * TILE_SIZE)) w
      with
      | (Ok img, w') => (draw_markers points zoom min_x min_y img, w')
      | (Raise e, w') => (Raise e, w')
      end.
Proof.
  intros Hne. unfold compose.
  destruct (py_minZ_spec _ (tile_coordinates_nonempty tiles tx Hne)) as (min_x & Hminx & Hmin_x).
  destruct (py_maxZ_spec _ (tile_coordinates_nonempty tiles tx Hne)) as (max_x & Hmaxx & Hmax_x).
  destruct (py_minZ_spec _ (tile_coordinates_nonempty tiles ty Hne)) as (min_y & Hminy & Hmin_y).
  destruct (py_maxZ_spec _ (tile_coordinates_nonempty tiles ty Hne)) as (max_y & Hmaxy & Hmax_y).
  exists min_x, max_x, min_y, max_y. repeat (split; [assumption|]).
  unfold bindM, liftM. rewrite Hminx, Hmaxx, Hminy, Hmaxy. reflexivity.
Qed.

Lemma compose_empty (points : list point) (zoom : Z) (w : world) :
  compose [] points zoom w = (Raise (ValueError "min() arg is an empty sequence"), w).
Proof. reflexivity. Qed.

End ComposeEffects.

Section ComposeOutcome.

Lemma compose_returns (tiles : list tile) (points : list point) (zoom : Z) (w : world) :
  tiles <> [] -> (forall t, In t tiles -> tile_available w t) ->
  exists cv w', compose tiles points zoom w = (Ok cv, w').
Proof.
  intros Hne Hav.
  destruct (compose_unfold tiles points zoom w Hne)
    as (min_x & max_x & min_y & max_y & _ & _ & _ & _ & ->).
  match goal with
  | |- context [paste_tiles ?ts ?mx ?my ?s ?img w] =>
      destruct (paste_tiles_spec ts mx my s img w) as (cv1 & w' & pastes & -> & _)
  end.
  { intros t Ht. apply Hav. apply (py_sorted_in tile_ltb tiles t). exact Ht. }
  destruct (draw_markers_spec points zoom min_x min_y cv1) as (cv & markers & -> & _).
  eauto.
Qed.

Lemma compose_returns_inv (tiles : list tile) (points : list point) (zoom : Z)
    (w w' : world) (cv : canvas) :
  compose tiles points zoom w = (Ok cv, w') ->
  tiles <> [] /\ forall t, In t tiles -> tile_available w t.
Proof.
  intros H. destruct tiles as [|t0 rest]; [rewrite compose_empty in H; discriminate|].
  split; [discriminate|].
  destruct (compose_unfold (t0 :: rest) points zoom w ltac:(discriminate))
    as (min_x & max_x & min_y & max_y & _ & _ & _ & _ & Heq).
  rewrite Heq in H. clear Heq.
  match type of H with
  | context [paste_tiles ?ts ?mx ?my ?s ?img w] =>
      destruct (paste_tiles ts mx my s img w) as [[cv1|e] w1] eqn:Hp; [|discriminate]
  end.
  intros t Ht. apply (paste_tiles_returns_inv _ _ _ _ _ _ _ _ Hp).
  apply (py_sorted_in tile_ltb (t0 :: rest) t). exact Ht.
Qed.

End ComposeOutcome.

(** X11: the compositor returns a canvas exactly when the tile list is
    not empty and every tile of it is available (cached as a decodable
    file, or served without error); otherwise it raises. *)
Theorem X11_compose_succeeds_iff (tiles : list tile) (points : list point)
    (zoom : Z) (w : world) :
  (exists cv w', compose tiles points zoom w = (Ok cv, w')) <->
  tiles <> [] /\ forall t, In t tiles -> tile_available w t.
Proof.
  split.
  - intros (cv & w' & H). apply (compose_returns_inv tiles points zoom w w' cv H).
  - intros [Hne Hav]. apply compose_returns; assumption.
Qed.

(** X12: after a composition that returned, every tile of the list is
    cached, and composing again from the resulting world returns without
    changing it: no request is sent and nothing is written. *)
Theorem X12_compose_fills_cache (tiles : list tile) (points : list point)
    (zoom : Z) (w : world) :
  tiles <> [] -> (forall t, In t tiles -> tile_available w t) ->
  exists cv w' cv',
    compose tiles points zoom w = (Ok cv, w') /\
    (forall t, In t tiles -> tile_cached w' t) /\
    compose tiles points zoom w' = (Ok cv', w').
Proof.
  intros Hne Hav.
  destruct (compose_returns tiles points zoom w Hne Hav) as (cv & w' & Hrun).
  assert (Hcached : forall t, In t tiles -> tile_cached w' t).
  { destruct (compose_unfold tiles points zoom w Hne)
      as (min_x & max_x & min_y & max_y & _ & _ & _ & _ & Heq).
    rewrite Heq in Hrun. clear Heq.
    match type of Hrun with
    | context [paste_tiles ?ts ?mx ?my ?s ?img w] =>
        destruct (paste_tiles ts mx my s img w) as [[cv1|e] w1] eqn:Hp; [|discriminate]
    end.
    assert (w1 = w') by congruence. subst w1.
    intros t Ht. apply (paste_tiles_fills _ _ _ _ _ _ _ _ Hp).
    apply (py_sorted_in tile_ltb tiles t). exact Ht. }
  destruct (compose_unfold tiles points zoom w' Hne)
    as (min_x & max_x & min_y & max_y & _ & _ & _ & _ & Heq).
  match type of Heq with
  | context [paste_tiles ?ts ?mx ?my ?s ?img w'] =>
      destruct (paste_tiles_cached ts mx my s img w') as [cv1 Hp]
  end.
  { intros t Ht. apply Hcached. apply (py_sorted_in tile_ltb tiles t). exact Ht. }
  rewrite Hp in Heq.
  destruct (draw_markers_spec points zoom min_x min_y cv1) as (cv' & markers & Hd & _).
  rewrite Hd in Heq. exists cv, w', cv'. auto.
Qed.

Lemma X12_compose_fills_cache_witness :
  [Tile 533 362 10] <> [] /\
  (forall t, In t [Tile 533 362 10] -> tile_available fresh_world t) /\
  exists cv w' cv',
    compose [Tile 533 362 10] [origin_point] 10 fresh_world = (Ok cv, w') /\
    (forall t, In t [Tile 533 362 10] -> tile_cached w' t) /\
    compose [Tile 533 362 10] [origin_point] 10 w' = (Ok cv', w').
Proof.
  split; [discriminate|]. split; [intros t _; apply fresh_world_available|].
  apply X12_compose_fills_cache; [discriminate|].
  intros t _. apply fresh_world_available.
Defined.

(** X13: whatever its outcome, the compositor only appends requests to
    those already sent.  Each new request carries the User-Agent
    "SOTA-map-generator/1.0 (ham radio)" and the timeout 20 and asks for a
    tile of the list that was not cached at the start, and no tile is
    requested twice. *)
Theorem X13_compose_requests (tiles : list tile) (points : list point)
    (zoom : Z) (w : world) :
  exists new,
    requests (snd (compose tiles points zoom w)) = requests w ++ new /\
    Forall (tile_request_of w tiles "SOTA-map-generator/1.0 (ham radio)") new /\
    List.NoDup (map req_tile new).
Proof.
  destruct tiles as [|t0 rest].
  - exists []. rewrite compose_empty. cbn. rewrite app_nil_r.
    split; [reflexivity|]. split; [constructor|apply List.NoDup_nil].
  - set (tiles := t0 :: rest).
    destruct (compose_unfold tiles points zoom w ltac:(discriminate))
      as (min_x & max_x & min_y & max_y & _ & _ & _ & _ & ->).
    match goal with
    | |- context [paste_tiles ?ts ?mx ?my ?s ?img w] =>
        destruct (paste_tiles_requests ts mx my s img w) as (new & Hreq & Hall & Hnd);
        destruct (paste_tiles ts mx my s img w) as [[cv1|e] w1]
    end.
    + exists new. cbn [snd] in *. split; [exact Hreq|]. split; [|exact Hnd].
      revert Hall. apply List.Forall_impl.
      intros q (Hua & Hto & Hc & t & Ht & Hk). repeat split; try assumption.
      exists t. split; [|exact Hk]. apply (py_sorted_in tile_ltb tiles t). exact Ht.
    + exists new. cbn [snd] in *. split; [exact Hreq|]. split; [|exact Hnd].
      revert Hall. apply List.Forall_impl.
      intros q (Hua & Hto & Hc & t & Ht & Hk). repeat split; try assumption.
      exists t. split; [|exact Hk]. apply (py_sorted_in tile_ltb tiles t). exact Ht.
Qed.

(** ** The PNG path as a whole *)

Section PngPath.

Lemma draw_markers_eq (points : list point) (zoom min_x min_y : Z) (img : canvas) :
  draw_markers points zoom min_x min_y img =
    Ok {| cv_size := cv_size img;
          cv_ops := cv_ops img ++ map (marker_of zoom min_x min_y) points |}.
Proof.
  revert img. induction points as [|[lat lon] rest IH]; intros img.
  - cbn. rewrite app_nil_r. destruct img; reflexivity.
  - cbn [draw_markers]. rewrite lonlat_to_pixels_total. cbn [bind].
    unfold ProjectionSpec.project. rewrite IH. cbn [ellipse cv_size cv_ops map].
    rewrite <- app_assoc. reflexivity.
Qed.

Lemma get_tile_written (z x y : Z) (s : session) (w : world) :
  written (snd (get_tile z x y s w)) = written w.
Proof.
  pose proof (get_tile_cases z x y s w) as Hc. cbv zeta in Hc.
  destruct (tile_cache w !! (z, x, y)) as [[im0|]|].
  1, 2: rewrite Hc; reflexivity.
  destruct (tile_server w (z, x, y)) as [status content|].
  2: rewrite Hc; reflexivity.
  destruct ((400 <=? status) && (status <? 600)).
  1: rewrite Hc; reflexivity.
  destruct content as [im0|]; rewrite Hc; reflexivity.
Qed.

Lemma paste_tiles_written (tiles : list tile) (min_x min_y : Z) (s : session)
    (img : canvas) (w : world) :
  written (snd (paste_tiles tiles min_x min_y s img w)) = written w.
Proof.
  revert img w. induction tiles as [|t rest IH]; intros img w; [reflexivity|].
  cbn [paste_tiles]. unfold bindM at 1.
  pose proof (get_tile_written (tz t) (tx t) (ty t) s w) as Hw.
  destruct (get_tile (tz t) (tx t) (ty t) s w) as [[im|e] w1]; cbn [snd] in Hw.
  - rewrite IH. exact Hw.
  - exact Hw.
Qed.

Lemma compose_written (tiles : list tile) (points : list point) (zoom : Z) (w : world) :
  written (snd (compose tiles points zoom w)) = written w.
Proof.
  destruct tiles as [|t0 rest]; [reflexivity|].
  destruct (compose_unfold (t0 :: rest) points zoom w ltac:(discriminate))
    as (min_x & max_x & min_y & max_y & _ & _ & _ & _ & ->).
  match goal with
  | |- context [paste_tiles ?ts ?mx ?my ?s ?img w] =>
      pose proof (paste_tiles_written ts mx my s img w) as Hw;
      destruct (paste_tiles ts mx my s img w) as [[cv1|e] w1]
  end; exact Hw.
Qed.

End PngPath.

Section PngFiles.

Lemma png_files (data : list activation) (output_filename : string) (w : world) :
  let out := output_to_png data output_filename w in
  (fst out = Ok tt /\
   exists cv, written (snd out) = written w ++ [(output_filename, cv)]) \/
  (exists e, fst out = Raise e /\ written (snd out) = written w).
Proof.
  intros out. subst out. unfold output_to_png.
  destruct (points_of data) as [|p rest]; [right; eexists; split; reflexivity|].
  unfold bindM at 1, liftM.
  destruct (png_geometry (p :: rest)) as [g|e]; [|right; eexists; split; reflexivity].
  unfold bindM.
  pose proof (compose_written (geo_tiles g) (geo_points g) (geo_zoom g) w) as Hw.
  destruct (compose (geo_tiles g) (geo_points g) (geo_zoom g) w) as [[cv|e] w1];
    cbn [snd] in Hw.
  - left. cbn. rewrite Hw. eauto.
  - right. cbn. eauto.
Qed.

End PngFiles.

(** X14: the PNG path writes no partial output.  When it returns, it has
    appended exactly one file, named [output_filename], to the files
    written; when it raises, the files written are those of before. *)
Theorem X14_png_no_partial_output (data : list activation) (output_filename : string)
    (w : world) :
  let out := output_to_png data output_filename w in
  (fst out = Ok tt /\
   exists cv, written (snd out) = written w ++ [(output_filename, cv)]) \/
  (exists e, fst out = Raise e /\ written (snd out) = written w).
Proof. apply png_files. Qed.

Section EndToEnd.
Local Open Scope R_scope.

(** Under the hypotheses of the coverage property, the tile of every
    point belongs to the tile list of the geometry. *)
Lemma geometry_covers (points : list point) :
  points <> [] ->
  (forall p, In p points -> -90 <= fst p <= 90) ->
  (forall p, In p points -> on_world_map p) ->
  exists g,
    png_geometry points = Ok g /\
    geo_points g = py_sorted point_ltb points /\
    (4 <= geo_zoom g <= 12)%Z /\
    (forall t, In t (geo_tiles g) -> tz t = geo_zoom g) /\
    forall p, In p points ->
      In (tile_of_pixel (pixel_x (geo_zoom g) p) (pixel_y (geo_zoom g) p) (geo_zoom g))
         (geo_tiles g).
Proof.
  intros Hne Hdom Hmap.
  destruct (geometry_tiles points Hne)
    as (g & lo_lat & hi_lat & lo_lon & hi_lon & Hg & Hlo_lat & Hhi_lat &
        Hlo_lon & Hhi_lon & Hbox & Hz & Hin).
  destruct (png_geometry_spec points Hne)
    as (g' & _ & _ & _ & _ & Hg' & Hpts & _).
  rewrite Hg in Hg'. injection Hg' as <-.
  exists g. split; [exact Hg|]. split; [exact Hpts|]. split; [exact Hz|].
  split; [intros t Ht; apply Hin in Ht; tauto|].
  set (z := geo_zoom g) in *.
  assert (Hlat : forall v, In v (map fst points) -> -89 < v < 89).
  { intros v Hv. apply in_map_iff in Hv as (p & <- & Hp).
    apply on_world_map_latitude; auto. }
  destruct Hlo_lat as [Hlo_lat Hlo_lat'], Hhi_lat as [Hhi_lat Hhi_lat'].
  destruct Hlo_lon as [Hlo_lon Hlo_lon'], Hhi_lon as [Hhi_lon Hhi_lon'].
  pose proof (Hlat _ Hlo_lat) as Hlo. pose proof (Hlat _ Hhi_lat) as Hhi.
  intros [lat lon] Hp.
  destruct (on_world_map_zoom (lat, lon) z (Hmap _ Hp)) as [Hx Hy].
  destruct (tile_index_on_raster _ z ltac:(lia) Hx) as [Hix _].
  destruct (tile_index_on_raster _ z ltac:(lia) Hy) as [Hiy _].
  assert (Hlat_in : In lat (map fst points)) by (apply (in_map fst _ _ Hp)).
  assert (Hlon_in : In lon (map snd points)) by (apply (in_map snd _ _ Hp)).
  pose proof (Hlo_lat' _ Hlat_in). pose proof (Hhi_lat' _ Hlat_in).
  pose proof (Hlo_lon' _ Hlon_in). pose proof (Hhi_lon' _ Hlon_in).
  pose proof (Hlat _ Hlat_in).
  apply Hin. unfold tile_of_pixel. cbn [tx ty tz].
  rewrite <- Hix, <- Hiy. unfold pixel_x, pixel_y. cbn [fst snd].
  split; [reflexivity|]. split; split.
  - apply tile_index_monotone, x_monotone. lra.
  - apply tile_index_monotone, x_monotone. lra.
  - apply tile_index_monotone, y_antitone; lra.
  - apply tile_index_monotone, y_antitone; lra.
Qed.

Lemma py_int_nonneg (r : R) : 0 <= r -> py_int r = Int_part r.
Proof. intros Hr. unfold py_int. destruct Rle_dec; [reflexivity|contradiction]. Qed.

(** A pixel whose tile column lies between [lo] and [hi] is, counted
    from the left edge of column [lo], inside [(hi - lo + 1) * 256]. *)
Lemma local_pixel_range (px : R) (lo hi : Z) :
  (lo <= Int_part (px / 256) <= hi)%Z ->
  (0 <= py_int (px - IZR (lo * TILE_SIZE)) < (hi - lo + 1) * 256)%Z.
Proof.
  intros [Hlo Hhi]. unfold TILE_SIZE.
  pose proof (Int_part_bounds (px / 256)) as [Hb1 Hb2].
  apply IZR_le in Hlo. apply IZR_le in Hhi.
  assert (Hpx : 256 * (px / 256) = px) by (field).
  rewrite mult_IZR.
  assert (Hr : IZR 0 <= px - IZR lo * 256 < IZR ((hi - lo + 1) * 256)).
  { rewrite mult_IZR, plus_IZR, minus_IZR. split; lra. }
  rewrite py_int_nonneg by lra.
  apply Int_part_range. exact Hr.
Qed.

End EndToEnd.

Section TileGrid.

Lemma NoDup_map_injective {A B : Type} (f : A -> B) (l : list A) :
  (forall a b, f a = f b -> a = b) -> List.NoDup l -> List.NoDup (map f l).
Proof.
  intros Hinj. induction 1 as [|a l Hnot Hnd IH]; cbn [map].
  - apply List.NoDup_nil.
  - apply List.NoDup_cons; [|exact IH].
    intros Hin. apply in_map_iff in Hin as (b & Heq & Hb).
    apply Hinj in Heq. subst b. contradiction.
Qed.

Lemma range_up_nodup (lo hi : Z) : List.NoDup (range_up lo hi).
Proof.
  unfold range_up. apply NoDup_map_injective; [intros a b; lia|apply seq_NoDup].
Qed.

(** A grid of columns by rows holds every tile once. *)
Lemma grid_nodup (xs ys : list Z) (z : Z) :
  List.NoDup xs -> List.NoDup ys ->
  List.NoDup (map tile_key (flat_map (fun x => map (fun y => Tile x y z) ys) xs)).
Proof.
  intros Hxs Hys. induction Hxs as [|x xs Hnot Hnd IH]; cbn [flat_map map].
  - apply List.NoDup_nil.
  - rewrite map_app. apply List.NoDup_app.
    + rewrite map_map. apply NoDup_map_injective; [|exact Hys].
      intros a b Heq. unfold tile_key in Heq. cbn [tx ty tz] in Heq. congruence.
    + exact IH.
    + intros k Hk1 Hk2.
      apply in_map_iff in Hk1 as (t1 & <- & Ht1).
      apply in_map_iff in Ht1 as (y1 & <- & _).
      apply in_map_iff in Hk2 as (t2 & Heq & Ht2).
      apply in_flat_map in Ht2 as (x2 & Hx2 & Ht2).
      apply in_map_iff in Ht2 as (y2 & <- & _).
      unfold tile_key in Heq. cbn [tx ty tz] in Heq.
      assert (x2 = x) by congruence. subst x2. contradiction.
Qed.

(** The tile locator lists no tile twice. *)
Lemma tiles_for_bbox_nodup (min_lon min_lat max_lon max_lat : R) (zoom : Z)
    (tiles : list tile) :
  tiles_for_bbox min_lon min_lat max_lon max_lat zoom = Ok tiles ->
  List.NoDup (map tile_key tiles).
Proof.
  unfold tiles_for_bbox. rewrite !lonlat_to_pixels_total. cbn [bind].
  intros H. injection H as <-. apply grid_nodup; apply range_up_nodup.
Qed.

Lemma geometry_tiles_nodup (points : list point) (g : geometry) :
  png_geometry points = Ok g -> List.NoDup (map tile_key (geo_tiles g)).
Proof.
  intros Hg. destruct points as [|p rest]; [discriminate|].
  destruct (png_geometry_spec (p :: rest) ltac:(discriminate))
    as (g' & lo_lat & hi_lat & lo_lon & hi_lon & Hg' & _ & _ & _ & _ & _ & _ & _ & _ & Ht).
  rewrite Hg in Hg'. injection Hg' as <-.
  apply (tiles_for_bbox_nodup _ _ _ _ _ _ Ht).
Qed.

End TileGrid.

(** X15: for a non-empty list of activations with latitudes in
    [-90, 90] that lie on the world map, in a world where every tile is
    available, the PNG path returns and writes one file.  Its canvas is
    (max_x - min_x + 1) * 256 by (max_y - min_y + 1) * 256 pixels, with
    min and max the extreme tile indices of the geometry, so a positive
    whole number of tiles each way.  The drawing operations are one
    paste per tile of the geometry, then one marker per activation and
    nothing else.  The paste of tile (x, y) holds the image that
    [get_tile] returns for that tile from the world at the start, at
    pixel offset ((x - min_x) * 256, (y - min_y) * 256).  The markers
    are those of the activation points at the chosen zoom, and the
    centre of every marker lies inside the canvas. *)
Theorem X15_png_end_to_end (data : list activation) (output_filename : string)
    (w : world) :
  data <> [] ->
  (forall a, In a data -> (-90 <= latitude a <= 90)%R) ->
  (forall a, In a data -> on_world_map (latitude a, longitude a)) ->
  (forall t, tile_available w t) ->
  exists g cv w' min_x max_x min_y max_y order pastes,
    png_geometry (points_of data) = Ok g /\
    output_to_png data output_filename w = (Ok tt, w') /\
    written w' = written w ++ [(output_filename, cv)] /\
    is_min min_x (map tx (geo_tiles g)) /\ is_max max_x (map tx (geo_tiles g)) /\
    is_min min_y (map ty (geo_tiles g)) /\ is_max max_y (map ty (geo_tiles g)) /\
    cv_size cv = ((max_x - min_x + 1) * 256, (max_y - min_y + 1) * 256) /\
    1 <= max_x - min_x + 1 /\ 1 <= max_y - min_y + 1 /\
    Permutation order (geo_tiles g) /\
    Forall2 (pastes_tile w map_session min_x min_y) order pastes /\
    cv_ops cv = pastes ++ map (marker_of (geo_zoom g) min_x min_y) (geo_points g) /\
    length pastes = length (geo_tiles g) /\
    Permutation (geo_points g) (points_of data) /\
    length (geo_points g) = length data /\
    forall p, In p (geo_points g) ->
      0 <= fst (marker_centre (geo_zoom g) min_x min_y p) < (max_x - min_x + 1) * 256 /\
      0 <= snd (marker_centre (geo_zoom g) min_x min_y p) < (max_y - min_y + 1) * 256.
Proof.
  intros Hne Hdom Hmap Hav.
  assert (Hpne : points_of data <> []) by (destruct data; [congruence|discriminate]).
  assert (Hdom' : forall p, In p (points_of data) -> (-90 <= fst p <= 90)%R).
  { intros p Hp. apply in_map_iff in Hp as (a & <- & Ha). apply Hdom, Ha. }
  assert (Hmap' : forall p, In p (points_of data) -> on_world_map p).
  { intros p Hp. apply in_map_iff in Hp as (a & <- & Ha). apply Hmap, Ha. }
  destruct (geometry_covers (points_of data) Hpne Hdom' Hmap')
    as (g & Hg & Hpts & Hz & Hzoom & Hcov).
  assert (Htne : geo_tiles g <> []).
  { destruct (points_of data) as [|p rest] eqn:E; [congruence|].
    intros Hnil. specialize (Hcov p (or_introl eq_refl)). rewrite Hnil in Hcov.
    destruct Hcov. }
  destruct (compose_unfold (geo_tiles g) (geo_points g) (geo_zoom g) w Htne)
    as (min_x & max_x & min_y & max_y & Hminx & Hmaxx & Hminy & Hmaxy & Hcomp).
  match type of Hcomp with
  | context [paste_tiles ?ts ?mx ?my ?s ?img w] =>
      destruct (paste_tiles_spec ts mx my s img w)
        as (cv1 & w1 & pastes & Hp & Hsize & Hops & Hall);
      [intros t _; apply Hav|rewrite Hp in Hcomp]
  end.
  rewrite draw_markers_eq in Hcomp. cbn [Image_new cv_size cv_ops app] in Hsize, Hops.
  exists g. eexists. eexists.
  exists min_x, max_x, min_y, max_y, (py_sorted tile_ltb (geo_tiles g)), pastes.
  split; [exact Hg|].
  split.
  { unfold output_to_png. destruct (points_of data) as [|p rest] eqn:E; [congruence|].
    unfold bindM, liftM, write_file. rewrite Hg, Hcomp. reflexivity. }
  cbn [written cv_size cv_ops].
  assert (Hw1 : written w1 = written w).
  { pose proof (paste_tiles_written (py_sorted tile_ltb (geo_tiles g)) min_x min_y
                  map_session
                  (Image_new ((max_x - min_x + 1) * TILE_SIZE, (max_y - min_y + 1) * TILE_SIZE))
                  w) as Hw.
    rewrite Hp in Hw. exact Hw. }
  rewrite Hw1, Hsize, Hops.
  split; [reflexivity|].
  split; [exact Hminx|]. split; [exact Hmaxx|].
  split; [exact Hminy|]. split; [exact Hmaxy|].
  destruct Hminx as [Hminx_in Hminx_le], Hmaxx as [Hmaxx_in Hmaxx_ge].
  destruct Hminy as [Hminy_in Hminy_le], Hmaxy as [Hmaxy_in Hmaxy_ge].
  split; [reflexivity|].
  split; [specialize (Hminx_le _ Hmaxx_in); lia|].
  split; [specialize (Hminy_le _ Hmaxy_in); lia|].
  split; [apply py_sorted_perm|].
  split.
  { apply (stitched_from_start _ _ _ _ _ _ _ Hall); [reflexivity|reflexivity|].
    apply (Permutation_NoDup (l := map tile_key (geo_tiles g))).
    - apply Permutation_map. symmetry. apply py_sorted_perm.
    - apply (geometry_tiles_nodup _ _ Hg). }
  split; [reflexivity|].
  split.
  { rewrite (stitched_length _ _ _ _ _ _ _ Hall).
    apply Permutation_length, py_sorted_perm. }
  split; [rewrite Hpts; apply py_sorted_perm|].
  split.
  { rewrite Hpts. rewrite (Permutation_length (py_sorted_perm point_ltb (points_of data))).
    unfold points_of. apply length_map. }
  intros p Hp'. rewrite Hpts in Hp'.
  apply (proj1 (py_sorted_in point_ltb (points_of data) p)) in Hp'.
  specialize (Hcov p Hp').
  pose proof (in_map tx _ _ Hcov) as Hx. pose proof (in_map ty _ _ Hcov) as Hy.
  cbn [tile_of_pixel tx ty] in Hx, Hy.
  unfold marker_centre. cbn [fst snd]. split.
  - apply local_pixel_range. split; [apply Hminx_le, Hx|apply Hmaxx_ge, Hx].
  - apply local_pixel_range. split; [apply Hminy_le, Hy|apply Hmaxy_ge, Hy].
Qed.

(** ** The exceptions of the PNG path *)

Section PngExceptions.

Lemma get_tile_raises (z x y : Z) (s : session) (w w' : world) (e : exn) :
  get_tile z x y s w = (Raise e, w') -> fetch_failure e.
Proof.
  intros H. unfold fetch_failure.
  pose proof (get_tile_cases z x y s w) as Hc. cbv zeta in Hc.
  destruct (tile_cache w !! (z, x, y)) as [[im0|]|].
  - rewrite Hc in H. discriminate.
  - rewrite Hc in H. inversion H. auto.
  - destruct (tile_server w (z, x, y)) as [status content|].
    2: rewrite Hc in H; inversion H; auto.
    destruct ((400 <=? status) && (status <? 600)).
    1: rewrite Hc in H; inversion H; eauto.
    destruct content as [im0|]; rewrite Hc in H; [discriminate|].
    inversion H. auto.
Qed.

Lemma paste_tiles_raises (tiles : list tile) (min_x min_y : Z) (s : session)
    (img : canvas) (w w' : world) (e : exn) :
  paste_tiles tiles min_x min_y s img w = (Raise e, w') -> fetch_failure e.
Proof.
  revert img w. induction tiles as [|t rest IH]; intros img w H; [discriminate|].
  cbn [paste_tiles] in H. unfold bindM at 1 in H.
  destruct (get_tile (tz t) (tx t) (ty t) s w) as [[im|e0] w1] eqn:Hg.
  - apply (IH _ _ H).
  - inversion H; subst. apply (get_tile_raises _ _ _ _ _ _ _ Hg).
Qed.

Lemma compose_raises (tiles : list tile) (points : list point) (zoom : Z)
    (w w' : world) (e : exn) :
  compose tiles points zoom w = (Raise e, w') ->
  (tiles = [] /\ e = ValueError "min() arg is an empty sequence") \/
  (tiles <> [] /\ fetch_failure e).
Proof.
  intros H. destruct tiles as [|t0 rest].
  - left. rewrite compose_empty in H. inversion H. auto.
  - right. split; [discriminate|].
    destruct (compose_unfold (t0 :: rest) points zoom w ltac:(discriminate))
      as (min_x & max_x & min_y & max_y & _ & _ & _ & _ & Heq).
    rewrite Heq in H. clear Heq.
    match type of H with
    | context [paste_tiles ?ts ?mx ?my ?s ?img w] =>
        destruct (paste_tiles ts mx my s img w) as [[cv1|e1] w1] eqn:Hp
    end.
    + rewrite draw_markers_eq in H. discriminate.
    + inversion H; subst. apply (paste_tiles_raises _ _ _ _ _ _ _ _ Hp).
Qed.

End PngExceptions.

Section PngRaises.

Lemma png_raises (data : list activation) (output_filename : string)
    (w : world) (e : exn) :
  fst (output_to_png data output_filename w) = Raise e ->
  (data = [] /\ e = RuntimeError "No activation coordinates found") \/
  (data <> [] /\
   (e = ValueError "min() arg is an empty sequence" \/ fetch_failure e)).
Proof.
  unfold output_to_png. destruct data as [|a rest].
  - cbn. intros H. inversion H. auto.
  - intros H. right. split; [discriminate|].
    destruct (points_of (a :: rest)) as [|p ps] eqn:E; [discriminate|].
    unfold bindM at 1, liftM in H.
    destruct (png_geometry_spec (p :: ps) ltac:(discriminate)) as (g & _ & _ & _ & _ & Hg & _).
    rewrite Hg in H. unfold bindM in H.
    destruct (compose (geo_tiles g) (geo_points g) (geo_zoom g) w) as [[cv|e1] w1] eqn:Hc.
    + discriminate.
    + cbn in H. inversion H; subst.
      destruct (compose_raises _ _ _ _ _ _ Hc) as [[_ ->]|[_ Hf]]; auto.
Qed.

End PngRaises.

(** X16: the exceptions of the PNG path.  It raises
    RuntimeError("No activation coordinates found") exactly when the
    activation list is empty; on a non-empty list it can only raise the
    ValueError of [min] on an empty tile list, or what a tile fetch
    raises: a request failure, an HTTP error status, or an undecodable
    image. *)
Theorem X16_png_exceptions (data : list activation) (output_filename : string)
    (w : world) (e : exn) :
  fst (output_to_png data output_filename w) = Raise e ->
  (data = [] /\ e = RuntimeError "No activation coordinates found") \/
  (data <> [] /\
   (e = ValueError "min() arg is an empty sequence" \/ fetch_failure e)).
Proof. apply png_raises. Qed.

Section Offline.

(** With an empty cache and a server that does not answer, the first
    fetch fails. *)
Lemma compose_offline (tiles : list tile) (points : list point) (zoom : Z) (w : world) :
  tiles <> [] ->
  (forall k, tile_cache w !! k = None) -> (forall k, tile_server w k = NoReply) ->
  exists w', compose tiles points zoom w = (Raise RequestException, w') /\
             written w' = written w.
Proof.
  intros Hne Hcache Hsrv.
  destruct (compose_unfold tiles points zoom w Hne)
    as (min_x & max_x & min_y & max_y & _ & _ & _ & _ & ->).
  pose proof (py_sorted_nonempty tile_ltb tiles Hne) as Hs.
  destruct (py_sorted tile_ltb tiles) as [|t rest]; [congruence|].
  cbn [paste_tiles]. unfold bindM at 1.
  pose proof (get_tile_cases (tz t) (tx t) (ty t) map_session w) as Hc. cbv zeta in Hc.
  rewrite Hcache, Hsrv in Hc. rewrite Hc. eexists. split; reflexivity.
Qed.

Lemma origin_geometry :
  exists g, png_geometry [origin_point] = Ok g /\ geo_tiles g <> [].
Proof.
  destruct (geometry_covers [origin_point]) as (g & Hg & _ & _ & _ & Hcov).
  - discriminate.
  - intros p [<-|[]]. unfold origin_point. cbn [fst]. lra.
  - intros p [<-|[]]. apply origin_on_world_map.
  - exists g. split; [exact Hg|]. intros Hnil.
    specialize (Hcov origin_point (or_introl eq_refl)). rewrite Hnil in Hcov.
    destruct Hcov.
Qed.

Lemma png_offline (output_filename : string) :
  exists w', output_to_png [summit_origin] output_filename offline_world =
               (Raise RequestException, w') /\ written w' = [].
Proof.
  destruct origin_geometry as (g & Hg & Hne).
  destruct (compose_offline (geo_tiles g) (geo_points g) (geo_zoom g) offline_world Hne)
    as (w' & Hc & Hw).
  - intros k. apply lookup_empty.
  - reflexivity.
  - exists w'. split; [|exact Hw].
    unfold output_to_png. change (points_of [summit_origin]) with [origin_point].
    unfold bindM, liftM. rewrite Hg, Hc. reflexivity.
Qed.

End Offline.

Lemma X16_png_exceptions_witness :
  fst (output_to_png [summit_origin] "sota.png" offline_world) = Raise RequestException /\
  (([summit_origin] = [] /\ RequestException = RuntimeError "No activation coordinates found") \/
   ([summit_origin] <> [] /\
    (RequestException = ValueError "min() arg is an empty sequence" \/
     fetch_failure RequestException))).
Proof.
  assert (H : fst (output_to_png [summit_origin] "sota.png" offline_world)
              = Raise RequestException).
  { destruct (png_offline "sota.png") as (w' & -> & _). reflexivity. }
  split; [exact H|].
  apply (X16_png_exceptions [summit_origin] "sota.png" offline_world RequestException H).
Defined.

Lemma X15_png_end_to_end_witness :
  [summit_origin] <> [] /\
  (forall a, In a [summit_origin] -> (-90 <= latitude a <= 90)%R) /\
  (forall a, In a [summit_origin] -> on_world_map (latitude a, longitude a)) /\
  (forall t, tile_available fresh_world t) /\
  exists g cv w',
    png_geometry (points_of [summit_origin]) = Ok g /\
    output_to_png [summit_origin] "sota.png" fresh_world = (Ok tt, w') /\
    written w' = written fresh_world ++ [("sota.png", cv)].
Proof.
  assert (Hdom : forall a, In a [summit_origin] -> (-90 <= latitude a <= 90)%R).
  { intros a [<-|[]]. cbn. lra. }
  assert (Hmap : forall a, In a [summit_origin] -> on_world_map (latitude a, longitude a)).
  { intros a [<-|[]]. apply origin_on_world_map. }
  split; [discriminate|]. split; [exact Hdom|]. split; [exact Hmap|].
  split; [apply fresh_world_available|].
  destruct (X15_png_end_to_end [summit_origin] "sota.png" fresh_world
              ltac:(discriminate) Hdom Hmap fresh_world_available)
    as (g & cv & w' & _ & _ & _ & _ & _ & _ & Hg & Hrun & Hw & _).
  exists g, cv, w'. auto.
Defined.

(** ** Call sign and activation list *)

Section CallSign.

Lemma upper_ascii_idempotent (c : Ascii.ascii) : upper_ascii (upper_ascii c) = upper_ascii c.
Proof.
  destruct c as [[] [] [] [] [] [] [] []]; vm_compute; reflexivity.
Qed.

Lemma upper_idempotent (s : string) : upper (upper s) = upper s.
Proof.
  induction s as [|c s IH]; [reflexivity|].
  cbn [upper]. rewrite upper_ascii_idempotent, IH. reflexivity.
Qed.

Lemma eqb_empty (s : string) : String.eqb s "" = true <-> s = ""%string.
Proof. apply String.eqb_eq. Qed.

End CallSign.

(** X17: [get_callsign] returns [CALLSIGN] when it is set and not empty;
    when it is unset or empty it returns [GITHUB_REPOSITORY_OWNER], even
    an empty one; its only failure is the KeyError of that second name,
    raised exactly when neither name gives a value. *)
Theorem X17_get_callsign_cases (env : gmap string string) :
  (forall c, get_callsign env = Done c <->
     (env !! "CALLSIGN" = Some c /\ c <> ""%string) \/
     ((env !! "CALLSIGN" = None \/ env !! "CALLSIGN" = Some ""%string) /\
      env !! "GITHUB_REPOSITORY_OWNER" = Some c)) /\
  (forall e, get_callsign env = Failed e <->
     e = KeyError "GITHUB_REPOSITORY_OWNER" /\
     (env !! "CALLSIGN" = None \/ env !! "CALLSIGN" = Some ""%string) /\
     env !! "GITHUB_REPOSITORY_OWNER" = None).
Proof.
  unfold get_callsign.
  destruct (env !! "CALLSIGN") as [cs|] eqn:Hcs;
    [destruct (String.eqb cs "") eqn:Hemp;
     [apply String.eqb_eq in Hemp; subst cs|apply String.eqb_neq in Hemp]|];
    destruct (env !! "GITHUB_REPOSITORY_OWNER") as [o|] eqn:Ho;
    (split; intros x;
     (split;
      [intros H; inversion H; subst; clear H
      |intros H; decompose [and or] H; clear H; subst]));
    try congruence; auto 6.
Qed.

(** ** Activation list, HTML map and [main] *)

Section Glue.
Local Open Scope R_scope.

Lemma build_html_map_empty : build_html_map [] = Raise ZeroDivisionError.
Proof.
  unfold build_html_map, py_div. cbn [map length INR].
  destruct Req_dec_T; [reflexivity|contradiction].
Qed.

Lemma build_html_map_ok (data : list activation) :
  data <> [] ->
  build_html_map data =
    Ok {| map_location := (py_sum (map latitude data) / INR (length (map latitude data)),
                           py_sum (map longitude data) / INR (length (map longitude data)));
          map_zoom_start := 8;
          map_tiles := "OpenStreetMap";
          map_control_scale := true;
          map_prefer_canvas := true;
          map_markers :=
            map (fun a => {| mk_location := (latitude a, longitude a);
                             mk_popup := popup_of a |}) data |}.
Proof.
  intros Hne. unfold build_html_map.
  assert (Hn : forall f : activation -> R, INR (length (map f data)) <> 0).
  { intros f. destruct data; [congruence|]. apply not_0_INR. discriminate. }
  rewrite !py_div_ok by apply Hn. reflexivity.
Qed.

Lemma build_html_map_raises (data : list activation) (e : exn) :
  build_html_map data = Raise e -> data = [] /\ e = ZeroDivisionError.
Proof.
  destruct data as [|a rest].
  - rewrite build_html_map_empty. intros H. inversion H. auto.
  - rewrite build_html_map_ok by discriminate. discriminate.
Qed.

Lemma fetch_cases (sys : system) :
  (exists e, get_callsign (environ sys) = Failed e /\
             fetch_sota_activations sys = (Failed e, sys)) \/
  (exists c r sys',
     get_callsign (environ sys) = Done c /\
     fetch_sota_activations sys = (r, sys') /\
     environ sys' = environ sys /\ api_server sys' = api_server sys /\
     api_requests sys' =
       api_requests sys ++
         [{| api_url := ("https://sotl.as/api/activations/" ++ upper c)%string;
             api_timeout := 30 |}] /\
     html_written sys' = html_written sys /\ png_world sys' = png_world sys /\
     (r = Failed (Exn RequestException) \/ r = Failed JSONDecodeError \/
      exists data, r = Done data)).
Proof.
  unfold fetch_sota_activations.
  destruct (get_callsign (environ sys)) as [c|e]; [right|left; eauto].
  destruct (api_server sys _) as [status [data|]|];
    eexists c, _, _; repeat split; eauto.
Qed.

End Glue.

Section MainCases.

Lemma get_callsign_failure (env : gmap string string) (e : py_error) :
  get_callsign env = Failed e -> e = KeyError "GITHUB_REPOSITORY_OWNER".
Proof.
  unfold get_callsign.
  destruct (env !! "CALLSIGN") as [cs|]; [destruct (String.eqb cs "")|];
    destruct (env !! "GITHUB_REPOSITORY_OWNER"); intros H; inversion H; reflexivity.
Qed.

Lemma output_to_html_cases (data : list activation) (output_filename : string)
    (sys : system) :
  (data = [] /\
   output_to_html data output_filename sys = (Failed (Exn ZeroDivisionError), sys)) \/
  (data <> [] /\
   exists m sys',
     build_html_map data = Ok m /\
     output_to_html data output_filename sys = (Done tt, sys') /\
     html_written sys' = html_written sys ++ [(output_filename, m)] /\
     png_world sys' = png_world sys /\ api_requests sys' = api_requests sys).
Proof.
  unfold output_to_html. destruct data as [|a rest].
  - left. rewrite build_html_map_empty. auto.
  - right. split; [discriminate|].
    rewrite build_html_map_ok by discriminate.
    eexists _, _. repeat split.
Qed.

Lemma run_png_cases (data : list activation) (output_filename : string) (sys : system) :
  let out := output_to_png data output_filename (png_world sys) in
  fst (run_png data output_filename sys) = of_result (fst out) /\
  png_world (snd (run_png data output_filename sys)) = snd out /\
  html_written (snd (run_png data output_filename sys)) = html_written sys.
Proof.
  unfold run_png.
  destruct (output_to_png data output_filename (png_world sys)) as [r w'].
  repeat split.
Qed.

(** [main], by cases on the activation list fetched. *)
Lemma main_cases (sys : system) :
  (exists e sys1, fetch_sota_activations sys = (Failed e, sys1) /\
                  main sys = (Failed e, sys1)) \/
  (exists sys1, fetch_sota_activations sys = (Done [], sys1) /\
                main sys = (Failed (Exn ZeroDivisionError), sys1)) \/
  (exists data sys1 m sys2,
     data <> [] /\
     fetch_sota_activations sys = (Done data, sys1) /\
     html_written sys2 = html_written sys1 ++ [("sota.html", m)] /\
     png_world sys2 = png_world sys1 /\
     main sys = run_png data "sota.png" sys2).
Proof.
  unfold main.
  destruct (fetch_sota_activations sys) as [[data|e] sys1]; [|left; eauto].
  right.
  destruct (output_to_html_cases data "sota.html" sys1)
    as [[-> Hh]|(Hne & m & sys2 & _ & Hh & Hw & Hp & _)]; rewrite Hh.
  - left. eauto.
  - right. exists data, sys1, m, sys2. auto.
Qed.

Lemma fetch_frame (sys sys1 : system) (r : outcome (list activation)) :
  fetch_sota_activations sys = (r, sys1) ->
  html_written sys1 = html_written sys /\ png_world sys1 = png_world sys.
Proof.
  intros H.
  destruct (fetch_cases sys) as [(e & _ & He)|(c & r' & sys' & _ & He & _ & _ & _ & Hh & Hp & _)];
    rewrite He in H; inversion H; subst; auto.
Qed.

End MainCases.

(** X18: [fetch_sota_activations] sends no request when the call sign
    cannot be resolved and otherwise exactly one, with timeout 30, to the
    API URL that ends in the upper-cased call sign, so that the letter
    case of the call sign does not matter.  It does not check the status
    of the response and never raises an HTTP status error, and it writes
    no file. *)
Theorem X18_fetch_effects (sys : system) :
  let out := fetch_sota_activations sys in
  html_written (snd out) = html_written sys /\
  png_world (snd out) = png_world sys /\
  (forall e, get_callsign (environ sys) = Failed e -> out = (Failed e, sys)) /\
  (forall c, get_callsign (environ sys) = Done c ->
     api_requests (snd out) =
       api_requests sys ++
         [{| api_url := ("https://sotl.as/api/activations/" ++ upper c)%string;
             api_timeout := 30 |}] /\
     upper (upper c) = upper c) /\
  (forall status, fst out <> Failed (Exn (HTTPError status))).
Proof.
  intros out. subst out.
  destruct (fetch_cases sys)
    as [(e & Hc & He)|(c & r & sys' & Hc & He & _ & _ & Hreq & Hh & Hp & Hr)];
    rewrite He; cbn [fst snd].
  - split; [reflexivity|]. split; [reflexivity|].
    split; [intros e' He'; congruence|].
    split; [intros c Hc'; congruence|].
    intros status H. apply get_callsign_failure in Hc. congruence.
  - split; [exact Hh|]. split; [exact Hp|].
    split; [intros e' He'; congruence|].
    split.
    + intros c' Hc'. assert (c' = c) by congruence. subst c'.
      split; [exact Hreq|apply upper_idempotent].
    + intros status H. destruct Hr as [->|[->|[data ->]]]; discriminate.
Qed.

(** X19: on a non-empty activation list [output_to_html] returns,
    appends one file and sends no request.  The centre of its map is
    (sum(lats) / len(lats), sum(lons) / len(lons)), the sum and the
    quotient that line 28 computes (floats read as reals); for a single
    activation this is the activation's own position.  The map is
    created with zoom_start 8, the OpenStreetMap tiles, the scale
    control and prefer_canvas.  It has one marker per activation, in the
    order of the input, at the activation's coordinates, with the popup
    text "code name (date)", the date cut to its first ten
    characters. *)
Theorem X19_html_map (data : list activation) (output_filename : string) (sys : system) :
  data <> [] ->
  exists m sys',
    output_to_html data output_filename sys = (Done tt, sys') /\
    html_written sys' = html_written sys ++ [(output_filename, m)] /\
    png_world sys' = png_world sys /\
    api_requests sys' = api_requests sys /\
    map_location m =
      ((py_sum (map latitude data) / INR (length data))%R,
       (py_sum (map longitude data) / INR (length data))%R) /\
    (forall a, data = [a] -> map_location m = (latitude a, longitude a)) /\
    map_zoom_start m = 8 /\ map_tiles m = "OpenStreetMap" /\
    map_control_scale m = true /\ map_prefer_canvas m = true /\
    map mk_location (map_markers m) = points_of data /\
    Forall2 (fun a mk =>
               mk_location mk = (latitude a, longitude a) /\
               mk_popup mk =
                 (summit_code a ++ " " ++ summit_name a ++ " (" ++
                  substring 0 10 (date a) ++ ")")%string)
            data (map_markers m).
Proof.
  intros Hne.
  destruct (output_to_html_cases data output_filename sys)
    as [[-> _]|(_ & m & sys' & Hm & Hh & Hw & Hp & Hr)]; [congruence|].
  exists m, sys'. repeat (split; [assumption|]).
  rewrite build_html_map_ok in Hm by exact Hne. injection Hm as <-.
  cbn [map_markers map_location map_zoom_start map_tiles map_control_scale
       map_prefer_canvas].
  rewrite !length_map.
  split; [reflexivity|]. split.
  { intros a ->. unfold py_sum. cbn [map fold_left length INR].
    f_equal; field. }
  repeat (split; [reflexivity|]).
  split; [rewrite map_map; reflexivity|].
  clear Hne Hh Hw Hp Hr. induction data as [|a rest IH]; cbn [map]; constructor.
  - split; reflexivity.
  - exact IH.
Qed.

Lemma X19_html_map_witness :
  [summit_a; summit_b] <> [] /\
  exists m sys',
    output_to_html [summit_a; summit_b] "sota.html" sample_system = (Done tt, sys') /\
    html_written sys' = html_written sample_system ++ [("sota.html", m)] /\
    map_location m =
      ((py_sum (map latitude [summit_a; summit_b]) / INR 2)%R,
       (py_sum (map longitude [summit_a; summit_b]) / INR 2)%R) /\
    map mk_location (map_markers m) = points_of [summit_a; summit_b].
Proof.
  split; [discriminate|].
  destruct (X19_html_map [summit_a; summit_b] "sota.html" sample_system ltac:(discriminate))
    as (m & sys' & H1 & H2 & _ & _ & H3 & _ & _ & _ & _ & _ & H4 & _).
  exists m, sys'. auto.
Defined.



(** X22: [main] never raises the RuntimeError of the PNG path: on an
    empty activation list it fails in the HTML path with
    ZeroDivisionError, having written no file and requested no tile. *)
Theorem X22_main_empty_list (sys : system) :
  (forall msg, fst (main sys) <> Failed (Exn (RuntimeError msg))) /\
  (forall sys1, fetch_sota_activations sys = (Done [], sys1) ->
     main sys = (Failed (Exn ZeroDivisionError), sys1) /\
     html_written sys1 = html_written sys /\ png_world sys1 = png_world sys).
Proof.
  split.
  - intros msg.
    destruct (main_cases sys)
      as [(e & sys1 & Hf & ->)|[(sys1 & Hf & ->)|(data & sys1 & m & sys2 & Hne & Hf & Hh & Hp & ->)]];
      cbn [fst].
    + destruct (fetch_cases sys)
        as [(e' & Hc & He)|(c & r & sys' & _ & He & _ & _ & _ & _ & _ & Hr)];
        rewrite He in Hf; inversion Hf; subst.
      * apply get_callsign_failure in Hc. subst. discriminate.
      * destruct Hr as [Hr|[Hr|[d Hr]]]; inversion Hr; discriminate.
    + discriminate.
    + destruct (run_png_cases data "sota.png" sys2) as (Hr & _). cbv zeta in Hr.
      rewrite Hr. intros H.
      destruct (fst (output_to_png data "sota.png" (png_world sys2))) as [u|e] eqn:He;
        [discriminate|].
      cbn [of_result] in H. inversion H; subst.
      destruct (png_raises data "sota.png" (png_world sys2) _ He)
        as [[-> _]|[_ [Hv|[Hq|[[s Hs]|Hu]]]]]; congruence.
  - intros sys1 Hf.
    destruct (main_cases sys)
      as [(e & s1 & Hf' & _)|[(s1 & Hf' & Hm)|(data & s1 & m & sys2 & Hne & Hf' & _)]];
      rewrite Hf in Hf'; inversion Hf'; subst; [|congruence].
    split; [exact Hm|]. apply (fetch_frame _ _ _ Hf).
Qed.




(** ** The order of drawing *)

Section DrawingOrder.

Lemma StronglySorted_weaken {A} (R1 R2 : A -> A -> Prop) (l : list A) :
  (forall a b, R1 a b -> R2 a b) -> StronglySorted R1 l -> StronglySorted R2 l.
Proof.
  intros Himp Hs. induction Hs as [|a l Hs IH Hall]; constructor; [exact IH|].
  revert Hall. apply List.Forall_impl. intros b. apply Himp.
Qed.

Lemma tile_ltb_true (a b : tile) :
  tile_ltb a b = true <-> ty a < ty b \/ (ty a = ty b /\ tx a < tx b).
Proof.
  unfold tile_ltb. destruct (Z.eqb_spec (ty a) (ty b)) as [He|Hne].
  - rewrite Z.ltb_lt. lia.
  - rewrite Z.ltb_lt. lia.
Qed.

Lemma tile_ltb_false (a b : tile) : tile_ltb b a = false <-> tile_le a b.
Proof.
  unfold tile_le. destruct (tile_ltb b a) eqn:E.
  - apply tile_ltb_true in E. split; [discriminate|lia].
  - split; [intros _|reflexivity].
    assert (Hn : ~ (ty b < ty a \/ (ty b = ty a /\ tx b < tx a))).
    { intros Hc. apply tile_ltb_true in Hc. congruence. }
    lia.
Qed.

Lemma tile_ltb_asym (a b : tile) : tile_ltb a b = true -> tile_ltb b a = false.
Proof.
  intros H. apply tile_ltb_true in H.
  destruct (tile_ltb b a) eqn:E; [|reflexivity].
  apply tile_ltb_true in E. lia.
Qed.

Lemma sorted_tiles_order (tiles : list tile) :
  StronglySorted tile_le (py_sorted tile_ltb tiles).
Proof.
  apply (StronglySorted_weaken (fun a b => tile_ltb b a = false)).
  - intros a b. apply tile_ltb_false.
  - apply Sorted_StronglySorted.
    + intros a b c Hab Hbc. apply tile_ltb_false in Hab, Hbc. apply tile_ltb_false.
      unfold tile_le in *. lia.
    + apply py_sorted_sorted. apply tile_ltb_asym.
Qed.

Lemma sorted_points_order (points : list point) :
  StronglySorted point_lex_le (py_sorted point_ltb points).
Proof.
  apply (StronglySorted_weaken point_le).
  - intros a b. apply point_le_iff.
  - apply Sorted_StronglySorted.
    + intros a b c. apply point_le_trans.
    + apply py_sorted_sorted. apply point_ltb_asym.
Qed.

End DrawingOrder.

(** X23: the order of drawing.  A composition that returns has fetched
    and pasted the tiles in ascending order of (y, x): the pastes are,
    tile by tile in that order, the image that [get_tile] returned for
    the tile, at pixel offset ((x - min_x) * 256, (y - min_y) * 256)
    from the least tile indices; when no tile occurs twice this is the
    image [get_tile] returns for it from the world at the start.  After
    the pastes it has drawn one marker per point in the order of the
    point list it was given; in the PNG path that list is the
    activation points in ascending order of (latitude, longitude). *)
Theorem X23_drawing_order (tiles : list tile) (points : list point) (zoom : Z) (w : world) :
  tiles <> [] -> (forall t, In t tiles -> tile_available w t) ->
  (exists cv w' min_x min_y order pastes,
     compose tiles points zoom w = (Ok cv, w') /\
     is_min min_x (map tx tiles) /\ is_min min_y (map ty tiles) /\
     Permutation order tiles /\ StronglySorted tile_le order /\
     stitched map_session min_x min_y w order pastes w' /\
     (List.NoDup (map tile_key tiles) ->
      Forall2 (pastes_tile w map_session min_x min_y) order pastes) /\
     cv_ops cv = pastes ++ map (marker_of zoom min_x min_y) points) /\
  (forall pts g, png_geometry pts = Ok g ->
     Permutation (geo_points g) pts /\ StronglySorted point_lex_le (geo_points g)).
Proof.
  intros Hne Hav. split.
  - destruct (compose_unfold tiles points zoom w Hne)
      as (min_x & max_x & min_y & max_y & Hminx & _ & Hminy & _ & ->).
    match goal with
    | |- context [paste_tiles ?ts ?mx ?my ?s ?img w] =>
        destruct (paste_tiles_spec ts mx my s img w)
          as (cv1 & w1 & pastes & -> & _ & Hops & Hall)
    end.
    { intros t Ht. apply Hav. apply (py_sorted_in tile_ltb tiles t). exact Ht. }
    rewrite draw_markers_eq. cbn [Image_new cv_ops app] in Hops.
    eexists _, w1, min_x, min_y, (py_sorted tile_ltb tiles), pastes.
    split; [reflexivity|]. split; [exact Hminx|]. split; [exact Hminy|].
    split; [apply py_sorted_perm|].
    split; [apply sorted_tiles_order|]. split; [exact Hall|].
    split.
    + intros Hnd.
      apply (stitched_from_start _ _ _ _ _ _ _ Hall); [reflexivity|reflexivity|].
      apply (Permutation_NoDup (l := map tile_key tiles)); [|exact Hnd].
      apply Permutation_map. symmetry. apply py_sorted_perm.
    + cbn [cv_ops]. rewrite Hops. reflexivity.
  - intros pts g Hg.
    assert (Hpts : geo_points g = py_sorted point_ltb pts).
    { unfold png_geometry in Hg.
      destruct (py_min _) in Hg; [|discriminate]. cbn [bind] in Hg.
      destruct (py_max _) in Hg; [|discriminate]. cbn [bind] in Hg.
      destruct (py_min _) in Hg; [|discriminate]. cbn [bind] in Hg.
      destruct (py_max _) in Hg; [|discriminate]. cbn [bind] in Hg.
      destruct (choose_zoom _ _) in Hg; [|discriminate]. cbn [bind] in Hg.
      destruct (tiles_for_bbox _ _ _ _ _) in Hg; [|discriminate]. cbn [bind] in Hg.
      injection Hg as <-. reflexivity. }
    rewrite Hpts. split; [apply py_sorted_perm|apply sorted_points_order].
Qed.

Lemma X23_drawing_order_witness :
  [Tile 533 362 10] <> [] /\
  (forall t, In t [Tile 533 362 10] -> tile_available fresh_world t) /\
  exists cv w' min_x min_y order pastes,
    compose [Tile 533 362 10] [origin_point] 10 fresh_world = (Ok cv, w') /\
    is_min min_x (map tx [Tile 533 362 10]) /\ is_min min_y (map ty [Tile 533 362 10]) /\
    Permutation order [Tile 533 362 10] /\ StronglySorted tile_le order /\
    stitched map_session min_x min_y fresh_world order pastes w' /\
    Forall2 (pastes_tile fresh_world map_session min_x min_y) order pastes /\
    cv_ops cv = pastes ++ map (marker_of 10 min_x min_y) [origin_point].
Proof.
  split; [discriminate|]. split; [intros t _; apply fresh_world_available|].
  destruct (X23_drawing_order [Tile 533 362 10] [origin_point] 10 fresh_world
              ltac:(discriminate) (fun t _ => fresh_world_available t))
    as [(cv & w' & min_x & min_y & order & pastes &
         H1 & H2 & H3 & H4 & H5 & H6 & H7 & H8) _].
  exists cv, w', min_x, min_y, order, pastes.
  repeat (split; [assumption|]).
  split; [|exact H8]. apply H7.
  apply List.NoDup_cons; [intros []|apply List.NoDup_nil].
Defined.
